(** * Modal window component: stage machine, registry, scroll lock, focus memory

    A shallow embedding of [src/index.tsx] (class [Modal]) and the
    properties of its lifecycle.  The component's fields become a record,
    the module-level state ([nextId], [parents]) and the part of the DOM it
    touches (datasets, inline styles, document listeners, the active
    element) become an explicit [World] that every method threads through.

    Conventions of the model:
    - [setState(s, callback)] takes effect at once and then runs the
      callback; React's rendering between the two is not part of the
      component.
    - [e.focus()] makes [e] the document's active element.
    - the text assigned to [style.cssText] is what the style attribute
      holds afterwards.
    - [animated] is a JavaScript number that is only ever incremented and
      decremented from 0; it is an integer here.
    - [onDocClick] asks the portal's element whether it contains the click
      target; the DOM tree is not modelled, and neither is this handler.
    - [this.portal] is assigned by the ref callback of [render], whenever
      React hands it a portal; the field [portal] of the record is the
      element that portal reports ([portal.getElement()]) when the open
      sequence reads it, given at construction.  Nothing is claimed about
      the field at other moments.
    - a re-render is followed by [componentDidUpdate]: [step] re-renders
      with [show] changed and the other props kept, [act] with any props. *)

From Stdlib Require Import ZArith DecimalString DecimalN.
From stdpp Require Import gmap strings list fin_maps.

Set Warnings "-clear-no-such-hyp".
Local Open Scope Z_scope.

(** ** Values of the source *)

(** Stage constants [OPENING], [OPENED], [CLOSING], [CLOSED]. *)
Inductive Stage := OPENING | OPENED | CLOSING | CLOSED.

#[global] Instance Stage_eq_dec : EqDecision Stage.
Proof. solve_decision. Defined.

(** [id: string|number]: either the [id] prop (a string) or a number drawn
    from the module counter [nextId] (1, 2, 3, ...). *)
Inductive Id := IdNum (n : N) | IdStr (s : string).

#[global] Instance Id_eq_dec : EqDecision Id.
Proof. solve_decision. Defined.

#[global] Instance Id_countable : Countable Id.
Proof.
  refine (inj_countable'
    (fun i => match i with IdNum n => inl n | IdStr s => inr s end)
    (fun x => match x with inl n => IdNum n | inr s => IdStr s end) _).
  by intros [].
Defined.

(** [id.toString()]: decimal digits for a number, the string itself for a
    string. *)
Definition toString (i : Id) : string :=
  match i with
  | IdNum n => NilEmpty.string_of_uint (N.to_uint n)
  | IdStr s => s
  end.

(** DOM elements are references; [ROOT] is [document.documentElement] and
    [BODY] is [document.body]. *)
Inductive Elem := ROOT | BODY | Node (n : nat).

#[global] Instance Elem_eq_dec : EqDecision Elem.
Proof. solve_decision. Defined.

#[global] Instance Elem_countable : Countable Elem.
Proof.
  refine (inj_countable'
    (fun e => match e with ROOT => inl true | BODY => inl false | Node n => inr n end)
    (fun x => match x with inl true => ROOT | inl false => BODY | inr n => Node n end) _).
  by intros [].
Defined.

(** The document-level events the component listens to, and the identity of
    an instance object (its bound handlers [onKeydown] and [onDocClick] are
    per instance, so a listener is an event type with an instance). *)
Inductive EventType := Click | Keydown.
Definition Ref := nat.

#[global] Instance EventType_eq_dec : EqDecision EventType.
Proof. solve_decision. Defined.

#[global] Instance EventType_countable : Countable EventType.
Proof.
  refine (inj_countable'
    (fun e => match e with Click => true | Keydown => false end)
    (fun b : bool => if b then Click else Keydown) _).
  by intros [].
Defined.

(** The optional lifecycle callbacks of [IProps]. *)
Inductive Callback :=
  CbOnCloseRequest | CbBeforeOpen | CbBeforeClose | CbOnOpen | CbOnClose.

#[global] Instance Callback_eq_dec : EqDecision Callback.
Proof. solve_decision. Defined.

(** What an observer outside the component sees it do, oldest first:
    [setState] calls, calls of the props' callbacks, [focus()] calls and
    [preventDefault()] calls. *)
Inductive Effect :=
| SetState (r : Ref) (s : Stage)
| Call (r : Ref) (cb : Callback)
| Focus (e : Elem)
| PreventDefault (r : Ref).

#[global] Instance Effect_eq_dec : EqDecision Effect.
Proof. solve_decision. Defined.

(** An element as far as the component reads and writes it: its [dataset]
    and its [style] attribute ([None] when the attribute is absent). *)
Record Element := {
  dataset : gmap string string;
  style : option string;
}.

Definition blank : Element := {| dataset := ∅; style := None |}.

(** [style.cssText]: the text of the style attribute, empty when absent. *)
Definition cssText (el : Element) : string := default ""%string (style el).

Definition STYLE_CACHE_KEY : string := "modalStyleCache".
Definition SCROLL_DISABLER_KEY : string := "scrollDisabledBy".

(** The module-level state and the document. *)
Record World := {
  nextId : N;                          (* let nextId = 0 *)
  parents : gmap Elem (list Id);       (* const parents = new Map() *)
  elements : gmap Elem Element;        (* elements with a dataset or style *)
  listeners : gset (EventType * Ref);  (* DOCUMENT's listeners *)
  activeElement : option Elem;         (* DOCUMENT.activeElement *)
  focusable : gset Elem;               (* typeof e.focus === 'function' *)
  trace : list Effect;
}.

Definition set_nextId (n : N) (w : World) : World :=
  {| nextId := n; parents := parents w; elements := elements w;
     listeners := listeners w; activeElement := activeElement w;
     focusable := focusable w; trace := trace w |}.
Definition set_parents (p : gmap Elem (list Id)) (w : World) : World :=
  {| nextId := nextId w; parents := p; elements := elements w;
     listeners := listeners w; activeElement := activeElement w;
     focusable := focusable w; trace := trace w |}.
Definition set_elements (e : gmap Elem Element) (w : World) : World :=
  {| nextId := nextId w; parents := parents w; elements := e;
     listeners := listeners w; activeElement := activeElement w;
     focusable := focusable w; trace := trace w |}.
Definition set_listeners (l : gset (EventType * Ref)) (w : World) : World :=
  {| nextId := nextId w; parents := parents w; elements := elements w;
     listeners := l; activeElement := activeElement w;
     focusable := focusable w; trace := trace w |}.
Definition set_activeElement (a : option Elem) (w : World) : World :=
  {| nextId := nextId w; parents := parents w; elements := elements w;
     listeners := listeners w; activeElement := a;
     focusable := focusable w; trace := trace w |}.
Definition emit (e : Effect) (w : World) : World :=
  {| nextId := nextId w; parents := parents w; elements := elements w;
     listeners := listeners w; activeElement := activeElement w;
     focusable := focusable w; trace := trace w ++ [e] |}.

(** Reading and writing one element of the document. *)
Definition element_of (w : World) (e : Elem) : Element :=
  default blank (elements w !! e).
Definition set_element (e : Elem) (el : Element) (w : World) : World :=
  set_elements (<[e := el]> (elements w)) w.

(** [e.focus()]: the element becomes the document's active element. *)
Definition focus (e : Elem) (w : World) : World :=
  emit (Focus e) (set_activeElement (Some e) w).

(** ** Array operations used by the registry *)

(** [ids.indexOf(id)]: first index holding [id], or -1. *)
Definition indexOf (ids : list Id) (x : Id) : Z :=
  match list_find (fun y => y = x) ids with
  | Some (i, _) => Z.of_nat i
  | None => -1
  end.

(** [ids.splice(start, deleteCount)], the array afterwards: a negative
    [start] counts from the end, and the count is clamped to what is left. *)
Definition splice (ids : list Id) (start deleteCount : Z) : list Id :=
  let len := Z.of_nat (length ids) in
  let from := if start <? 0 then Z.max (len + start) 0 else Z.min start len in
  let count := Z.min (Z.max deleteCount 0) (len - from) in
  take (Z.to_nat from) ids ++ drop (Z.to_nat (from + count)) ids.

(** The style utility imported from [@tolkam/lib-utils-ui]:
    [disableScroll(target)] rewrites the target's style attribute and
    returns a string, which the component caches. *)
Class StyleUtility := lib_disableScroll : Elem -> option string -> string * option string.

(** ** The props *)

Module IProps.
Record t := {
  show : bool;
  id : option string;
  appendTo : option Elem;
  noBackdrop : bool;
  noFocus : bool;
  allowScroll : bool;
  withDocumentClicks : bool;
  noBackdropClicks : bool;
  className : option string;
  classNameBody : option string;
  classNameBackdrop : option string;
  classPrefixBody : option string;
  classPrefixBackdrop : option string;
  (* onCloseRequest always has a value (defaultProps); the others are
     present or undefined *)
  beforeOpen : bool;
  beforeClose : bool;
  onOpen : bool;
  onClose : bool;
}.

(** [defaultProps] and every optional prop left out. *)
Definition defaults : t :=
  {| show := false; id := None; appendTo := None; noBackdrop := false;
     noFocus := false; allowScroll := false; withDocumentClicks := false;
     noBackdropClicks := false; className := None; classNameBody := None;
     classNameBackdrop := None; classPrefixBody := None;
     classPrefixBackdrop := None; beforeOpen := false;
     beforeClose := false; onOpen := false; onClose := false |}.

Definition with_show (b : bool) (p : t) : t :=
  {| show := b; id := id p; appendTo := appendTo p;
     noBackdrop := noBackdrop p; noFocus := noFocus p;
     allowScroll := allowScroll p;
     withDocumentClicks := withDocumentClicks p;
     noBackdropClicks := noBackdropClicks p; className := className p;
     classNameBody := classNameBody p;
     classNameBackdrop := classNameBackdrop p;
     classPrefixBody := classPrefixBody p;
     classPrefixBackdrop := classPrefixBackdrop p;
     beforeOpen := beforeOpen p; beforeClose := beforeClose p;
     onOpen := onOpen p; onClose := onClose p |}.
End IProps.

(** ** What [render] returns *)

(** The handlers the rendered tree refers to. *)
Inductive Handler := HOnClosing | HOnOpening | HOnClick.

(** One [<Animatable>] with the props [render] gives it; [onClick] is the
    click handler of its child [div], if any. *)
Record Animatable := {
  a_show : bool;
  onCompleted : Handler;
  onEntered : Handler;
  animateAppear : bool;
  a_className : string;
  classPrefix : string;
  onClick_prop : option Handler;
}.

(** The [<Portal>] with the modal's root [div]: the body, then the
    backdrop ([None] when the variable [backdrop] stays undefined). *)
Record Rendered := {
  to : Elem;
  r_className : string;
  tabIndex : Z;
  body : Animatable;
  backdrop : option Animatable;
}.

(** A keyboard event as [onKeydown] uses it. *)
Record KeyboardEvent := {
  key : string;
  defaultPrevented : bool;
}.

(** ** The component *)

Module Modal.
Section WithStyleUtility.
Context {util : StyleUtility}.

(** The fields of an instance; [self] is the identity of the object,
    [portal] the element [portal.getElement()] returns. *)
Record t := {
  self : Ref;
  props : IProps.t;
  id : Id;
  parent : Elem;
  portal : option Elem;
  prevFocused : option Elem;
  animated : Z;
  stage : Stage;
}.

Definition set_props (p : IProps.t) (m : t) : t :=
  {| self := self m; props := p; id := id m; parent := parent m;
     portal := portal m; prevFocused := prevFocused m;
     animated := animated m; stage := stage m |}.
Definition set_prevFocused (f : option Elem) (m : t) : t :=
  {| self := self m; props := props m; id := id m; parent := parent m;
     portal := portal m; prevFocused := f;
     animated := animated m; stage := stage m |}.
Definition set_animated (a : Z) (m : t) : t :=
  {| self := self m; props := props m; id := id m; parent := parent m;
     portal := portal m; prevFocused := prevFocused m;
     animated := a; stage := stage m |}.
Definition set_stage (s : Stage) (m : t) : t :=
  {| self := self m; props := props m; id := id m; parent := parent m;
     portal := portal m; prevFocused := prevFocused m;
     animated := animated m; stage := s |}.

(** [cb && cb()] for an optional callback of the props. *)
Definition call_opt (m : t) (present : bool) (cb : Callback) (w : World) : World :=
  if present then emit (Call (self m) cb) w else w.

(** [constructor(props)]; [r] is the new object and [el] the element its
    portal will report. *)
Definition constructor (r : Ref) (el : option Elem) (p : IProps.t) (w : World) : t * World :=
  let '(i, w) :=
    match IProps.id p with
    | Some s => if decide (s = ""%string)
                then (IdNum (nextId w + 1), set_nextId (nextId w + 1) w)
                else (IdStr s, w)
    | None => (IdNum (nextId w + 1), set_nextId (nextId w + 1) w)
    end in
  ({| self := r; props := p; id := i;
      parent := default BODY (IProps.appendTo p);
      portal := el; prevFocused := None; animated := 0;
      stage := if IProps.show p then OPENED else CLOSED |}, w).

(** [const target = parent === BODY ? ROOT : parent]. *)
Definition target (m : t) : Elem :=
  if decide (parent m = BODY) then ROOT else parent m.

Definition disableScroll (m : t) (w : World) : World :=
  let el := element_of w (target m) in
  if IProps.allowScroll (props m) then w
  else match dataset el !! STYLE_CACHE_KEY with
       | Some _ => w
       | None =>
           let '(prev, st) := lib_disableScroll (target m) (style el) in
           set_element (target m)
             {| dataset := <[SCROLL_DISABLER_KEY := toString (id m)]>
                             (<[STYLE_CACHE_KEY := prev]> (dataset el));
                style := st |} w
       end.

Definition restoreScroll (m : t) (w : World) : World :=
  let el := element_of w (target m) in
  if decide (dataset el !! SCROLL_DISABLER_KEY = Some (toString (id m))) then
    let el1 :=
      match dataset el !! STYLE_CACHE_KEY with
      | Some cached =>
          {| dataset := delete SCROLL_DISABLER_KEY
                          (delete STYLE_CACHE_KEY (dataset el));
             style := Some cached |}
      | None => el
      end in
    let el2 :=
      if decide (cssText el1 = ""%string)
      then {| dataset := dataset el1; style := None |}
      else el1 in
    set_element (target m) el2 w
  else w.

Definition storeFocus (m : t) (w : World) : t * World :=
  let m := set_prevFocused (activeElement w) m in
  (m, match portal m with Some e => focus e w | None => w end).

Definition restoreFocus (m : t) (w : World) : World :=
  match prevFocused m with
  | Some e => if decide (e ∈ focusable w) then focus e w else w
  | None => w
  end.

Definition addDocEvents (m : t) (w : World) : World :=
  let w :=
    if IProps.withDocumentClicks (props m)
    then set_listeners ({[ (Click, self m) ]} ∪ listeners w) w
    else w in
  set_listeners ({[ (Keydown, self m) ]} ∪ listeners w) w.

Definition removeDocEvents (m : t) (w : World) : World :=
  let w :=
    if IProps.withDocumentClicks (props m)
    then set_listeners (listeners w ∖ {[ (Click, self m) ]}) w
    else w in
  set_listeners (listeners w ∖ {[ (Keydown, self m) ]}) w.

Definition register (m : t) (w : World) : World :=
  match parents w !! parent m with
  | None => set_parents (<[parent m := [id m]]> (parents w)) w
  | Some ids => set_parents (<[parent m := id m :: ids]> (parents w)) w
  end.

Definition unregister (m : t) (w : World) : World :=
  match parents w !! parent m with
  | None => w
  | Some ids =>
      let ids := splice ids (indexOf ids (id m)) 1 in
      if decide (length ids = 0%nat)
      then set_parents (delete (parent m) (parents w)) w
      else set_parents (<[parent m := ids]> (parents w)) w
  end.

Definition isOnTop (m : t) (w : World) : bool :=
  match parents w !! parent m with
  | Some ids => bool_decide (ids !! 0%nat = Some (id m))
  | None => false
  end.

Definition onOpen (m : t) (w : World) : t * World :=
  let w := register m w in
  let w := addDocEvents m w in
  let '(m, w) := if IProps.noFocus (props m) then (m, w) else storeFocus m w in
  (m, call_opt m (IProps.onOpen (props m)) CbOnOpen w).

Definition onClose (m : t) (w : World) : World :=
  let w := unregister m w in
  let w := removeDocEvents m w in
  let w := restoreFocus m w in
  let w := restoreScroll m w in
  call_opt m (IProps.onClose (props m)) CbOnClose w.

Definition beforeOpen (m : t) (w : World) : World :=
  let w := call_opt m (IProps.beforeOpen (props m)) CbBeforeOpen w in
  disableScroll m w.

Definition beforeClose (m : t) (w : World) : World :=
  call_opt m (IProps.beforeClose (props m)) CbBeforeClose w.

(** [this.setState({stage: s}, callback)] up to the callback. *)
Definition setState (s : Stage) (m : t) (w : World) : t * World :=
  (set_stage s m, emit (SetState (self m) s) w).

Definition componentDidUpdate (m : t) (w : World) : t * World :=
  let curShow := IProps.show (props m) in
  let curStage := stage m in
  if curShow && bool_decide (curStage = CLOSED)
     || negb curShow && bool_decide (curStage = OPENED)
  then
    let '(m, w) := setState (if curShow then OPENING else CLOSING) m w in
    (m, if curShow then beforeOpen m w else beforeClose m w)
  else (m, w).

Definition componentWillUnmount (m : t) (w : World) : World := onClose m w.

Definition expectedCount (m : t) : Z :=
  if IProps.noBackdrop (props m) then 1 else 2.

Definition onOpening (m : t) (w : World) : t * World :=
  let m := set_animated (animated m + 1) m in
  if decide (animated m = expectedCount m)
  then let '(m, w) := setState OPENED m w in onOpen m w
  else (m, w).

Definition onClosing (m : t) (w : World) : t * World :=
  let m := set_animated (animated m - 1) m in
  if decide (animated m = 0)
  then let '(m, w) := setState CLOSED m w in (m, onClose m w)
  else (m, w).

Definition onClick (m : t) (w : World) : World :=
  emit (Call (self m) CbOnCloseRequest) w.

Definition onKeydown (m : t) (e : KeyboardEvent) (w : World) : KeyboardEvent * World :=
  if bool_decide (key e = "Escape"%string) && isOnTop m w
  then ({| key := key e; defaultPrevented := true |},
        emit (Call (self m) CbOnCloseRequest) (emit (PreventDefault (self m)) w))
  else (e, w).

Definition render (m : t) : option Rendered :=
  let p := props m in
  let className := default "modal"%string (IProps.className p) in
  let bdClassName :=
    default (className +:+ "__backdrop")%string (IProps.classNameBackdrop p) in
  let bodyClassName :=
    default (className +:+ "__body")%string (IProps.classNameBody p) in
  let bodyAnimationsPrefix :=
    default (bodyClassName +:+ "-")%string (IProps.classPrefixBody p) in
  let bdAnimationsPrefix :=
    default (bdClassName +:+ "-")%string (IProps.classPrefixBackdrop p) in
  if decide (stage m = CLOSED) then None
  else
    let animationAware cls pre click :=
      {| a_show := negb (bool_decide (stage m = CLOSING));
         onCompleted := HOnClosing; onEntered := HOnOpening;
         animateAppear := true; a_className := cls; classPrefix := pre;
         onClick_prop := click |} in
    Some {| to := parent m; r_className := className; tabIndex := -1;
            body := animationAware bodyClassName bodyAnimationsPrefix None;
            backdrop :=
              if IProps.noBackdrop p then None
              else Some (animationAware bdClassName bdAnimationsPrefix
                           (if IProps.noBackdropClicks p then None
                            else Some HOnClick)) |}.

End WithStyleUtility.
End Modal.

Arguments Modal.register : simpl never.
Arguments Modal.unregister : simpl never.
Arguments Modal.addDocEvents : simpl never.
Arguments Modal.removeDocEvents : simpl never.
Arguments Modal.disableScroll : simpl never.
Arguments Modal.restoreScroll : simpl never.
Arguments Modal.restoreFocus : simpl never.
Arguments Modal.call_opt : simpl never.
Arguments Modal.onOpen : simpl never.
Arguments Modal.onClose : simpl never.

(** ** Lifecycle events *)

(** What the host does to a mounted instance: React re-renders it with
    [props.show = b] and calls [componentDidUpdate]; an [<Animatable>]
    calls [onEntered] (bound to [onOpening]) or [onCompleted] (bound to
    [onClosing]). *)
Inductive Event := DidUpdate (b : bool) | Entered | Completed.

Definition step {util : StyleUtility} (s : Modal.t * World) (ev : Event) : Modal.t * World :=
  let '(m, w) := s in
  match ev with
  | DidUpdate b =>
      Modal.componentDidUpdate
        (Modal.set_props (IProps.with_show b (Modal.props m)) m) w
  | Entered => Modal.onOpening m w
  | Completed => Modal.onClosing m w
  end.

Definition run {util : StyleUtility} (evs : list Event) (s : Modal.t * World) : Modal.t * World :=
  foldl step s evs.

(** How often an effect occurs in a trace. *)
Definition occurrences (e : Effect) (tr : list Effect) : nat :=
  length (filter (fun x => x = e) tr).
(** How often [setState({stage: s})] was called by instance [r]. *)
Definition fired (r : Ref) (s : Stage) (tr : list Effect) : nat :=
  occurrences (SetState r s) tr.
(** How often instance [r] called the callback [cb] of its props. *)
Definition called (r : Ref) (cb : Callback) (tr : list Effect) : nat :=
  occurrences (Call r cb) tr.

(** A style utility to run examples with: it hides the overflow and
    returns the style text it found. *)
Definition hide_overflow : StyleUtility :=
  fun _ st => (default ""%string st,
               Some (default ""%string st +:+ "overflow: hidden;")%string).

(** The effects of [storeFocus] (when [onOpen] calls it), of
    [restoreFocus] and of an optional callback. *)
Definition focus_trace (m : Modal.t) : list Effect :=
  if IProps.noFocus (Modal.props m) then []
  else match Modal.portal m with Some e => [Focus e] | None => [] end.

Definition restore_trace (m : Modal.t) (w : World) : list Effect :=
  match Modal.prevFocused m with
  | Some e => if decide (e ∈ focusable w) then [Focus e] else []
  | None => []
  end.

Definition call_trace (m : Modal.t) (present : bool) (cb : Callback) : list Effect :=
  if present then [Call (Modal.self m) cb] else [].

(** The scroll lock of the element [tgt] is held in the name of [owner],
    with [cached] the style text kept for the release. *)
Definition lock_held (w : World) (tgt : Elem) (owner : Id) (cached : string) : Prop :=
  dataset (element_of w tgt) !! SCROLL_DISABLER_KEY = Some (toString owner)
  ∧ dataset (element_of w tgt) !! STYLE_CACHE_KEY = Some cached.

(** Neither handler of instance [r] is among the document's listeners. *)
Definition detached (r : Ref) (w : World) : Prop :=
  ((Keydown, r) ∉ listeners w) ∧ ((Click, r) ∉ listeners w).

(** ** Re-renders with any props *)

(** What the host does to a mounted instance, in full: React re-renders it
    with the props [p] its parent now passes and calls
    [componentDidUpdate]; an [<Animatable>] calls [onEntered] or
    [onCompleted].  [DidUpdate b] is [Render] with only [show] changed. *)
Inductive Action := Render (p : IProps.t) | OnEntered | OnCompleted.

Definition act {util : StyleUtility} (s : Modal.t * World) (a : Action) : Modal.t * World :=
  let '(m, w) := s in
  match a with
  | Render p => Modal.componentDidUpdate (Modal.set_props p m) w
  | OnEntered => Modal.onOpening m w
  | OnCompleted => Modal.onClosing m w
  end.

Definition perform {util : StyleUtility} (acts : list Action) (s : Modal.t * World) : Modal.t * World :=
  foldl act s acts.

Definition is_entered (a : Action) : bool :=
  match a with OnEntered => true | _ => false end.
Definition is_completed (a : Action) : bool :=
  match a with OnCompleted => true | _ => false end.

(** How many of the actions [acts] satisfy [f]. *)
Definition count_signals (f : Action → bool) (acts : list Action) : Z :=
  Z.of_nat (length (filter (fun a => f a = true) acts)).

(** Every re-render among [acts] passes [withDocumentClicks = wdc]. *)
Definition keeps_clicks (wdc : bool) (acts : list Action) : Prop :=
  Forall (fun a => match a with
                   | Render p => IProps.withDocumentClicks p = wdc
                   | _ => True
                   end) acts.

(** The stage an effect settles instance [r] in: [setState] with OPENED is
    called only by [onOpening] when its rendezvous completes, with CLOSED
    only by [onClosing]. *)
Definition settles (r : Ref) (e : Effect) : option Stage :=
  match e with
  | SetState r' OPENED => if decide (r' = r) then Some OPENED else None
  | SetState r' CLOSED => if decide (r' = r) then Some CLOSED else None
  | _ => None
  end.

(** The last stage the rendezvous of instance [r] has set, if it has
    completed at all; the trace is in order of time. *)
Fixpoint settled (r : Ref) (tr : list Effect) : option Stage :=
  match tr with
  | [] => None
  | e :: tr' =>
      match settled r tr' with
      | Some s => Some s
      | None => settles r e
      end
  end.

(** What the lifecycle keeps true of the listeners of instance [r]. *)
Definition listeners_track (r : Ref) (s : Modal.t * World) : Prop :=
  Modal.self s.1 = r
  ∧ ((Keydown, r) ∈ listeners s.2 ↔ settled r (trace s.2) = Some OPENED)
  ∧ (Modal.stage s.1 = CLOSED ∨ Modal.stage s.1 = OPENING →
     settled r (trace s.2) ≠ Some OPENED)
  ∧ ((Click, r) ∈ listeners s.2 → settled r (trace s.2) ≠ None).

(** What it keeps true of the click listener as long as
    [withDocumentClicks] stays [wdc]. *)
Definition clicks_track (r : Ref) (wdc : bool) (s : Modal.t * World) : Prop :=
  IProps.withDocumentClicks (Modal.props s.1) = wdc
  ∧ ((Click, r) ∈ listeners s.2 ↔
     wdc = true ∧ settled r (trace s.2) = Some OPENED).

(** ** Two modals under [document.body]

    A and B are mounted closed with default props, shown one after the
    other, then B is hidden; each animates its body and its backdrop. *)
Module Scenario.
#[local] Existing Instance hide_overflow.

Definition open : list Event := [DidUpdate true; Entered; Entered].
Definition close : list Event := [DidUpdate false; Completed; Completed].

(** The page: a button (node 7) has the focus; it and the two modal
    roots (nodes 0 and 1) can take it. *)
Definition page : World :=
  {| nextId := 0%N; parents := ∅; elements := ∅; listeners := ∅;
     activeElement := Some (Node 7);
     focusable := {[ Node 0; Node 1; Node 7 ]}; trace := [] |}.

Definition mountA := Modal.constructor 0%nat (Some (Node 0)) IProps.defaults page.
Definition mountB := Modal.constructor 1%nat (Some (Node 1)) IProps.defaults mountA.2.
Definition openA := run open (mountA.1, mountB.2).
Definition openB := run open (mountB.1, openA.2).
Definition closeB := run close openB.
(** B's parent component drops it: React calls [componentWillUnmount]. *)
Definition unmountB := Modal.componentWillUnmount closeB.1 closeB.2.

(** A is shown and takes the scroll lock while a third modal S, which
    was given the id "1" by its parent, sits closed and is unmounted. *)
Definition named : IProps.t :=
  {| IProps.show := false; IProps.id := Some "1"%string;
     IProps.appendTo := None; IProps.noBackdrop := false;
     IProps.noFocus := false; IProps.allowScroll := false;
     IProps.withDocumentClicks := false; IProps.noBackdropClicks := false;
     IProps.className := None; IProps.classNameBody := None;
     IProps.classNameBackdrop := None; IProps.classPrefixBody := None;
     IProps.classPrefixBackdrop := None; IProps.beforeOpen := false;
     IProps.beforeClose := false; IProps.onOpen := false;
     IProps.onClose := false |}.
Definition mountS := Modal.constructor 3%nat (Some (Node 3)) named mountA.2.
Definition showA := run [DidUpdate true] (mountA.1, mountS.2).
Definition unmountS := Modal.componentWillUnmount mountS.1 showA.2.

(** After B has closed the user clicks the button, which takes the
    focus; then B is unmounted. *)
Definition clickButton := set_activeElement (Some (Node 7)) closeB.2.
Definition unmountLater := Modal.componentWillUnmount closeB.1 clickButton.

(** A half way through its opening: one of its two parts has entered. *)
Definition halfA := run [DidUpdate true; Entered] mountA.

(** A modal without a backdrop, mounted closed. *)
Definition bare : IProps.t :=
  {| IProps.show := false; IProps.id := None;
     IProps.appendTo := None; IProps.noBackdrop := true;
     IProps.noFocus := false; IProps.allowScroll := false;
     IProps.withDocumentClicks := true; IProps.noBackdropClicks := false;
     IProps.className := None; IProps.classNameBody := None;
     IProps.classNameBackdrop := None; IProps.classPrefixBody := None;
     IProps.classPrefixBackdrop := None; IProps.beforeOpen := true;
     IProps.beforeClose := true; IProps.onOpen := true;
     IProps.onClose := true |}.
Definition mountBare := Modal.constructor 4%nat (Some (Node 4)) bare page.

(** A modal mounted with [show] set, alone on the page. *)
Definition mountShown :=
  Modal.constructor 2%nat (Some (Node 2))
    (IProps.with_show true IProps.defaults) page.

(** The modal without a backdrop is re-rendered, while open, with
    [withDocumentClicks] switched off, and then hidden. *)
Definition unclicked : IProps.t :=
  {| IProps.show := false; IProps.id := None;
     IProps.appendTo := None; IProps.noBackdrop := true;
     IProps.noFocus := false; IProps.allowScroll := false;
     IProps.withDocumentClicks := false; IProps.noBackdropClicks := false;
     IProps.className := None; IProps.classNameBody := None;
     IProps.classNameBackdrop := None; IProps.classPrefixBody := None;
     IProps.classPrefixBackdrop := None; IProps.beforeOpen := true;
     IProps.beforeClose := true; IProps.onOpen := true;
     IProps.onClose := true |}.
Definition openBare :=
  perform [Render (IProps.with_show true bare); OnEntered] mountBare.
Definition closeUnclicked := perform [Render unclicked; OnCompleted] openBare.

(** One of the two parts of the modal mounted with [show] set has
    entered. *)
Definition enteredShown := perform [OnEntered] mountShown.

(** The modal mounted with [show] set is hidden before either of its
    parts has entered; each part then completes its exit once.  Later
    [show] is set again. *)
Definition hideShown :=
  run [DidUpdate false; Completed; Completed] mountShown.
Definition reshow := run [DidUpdate true] hideShown.
End Scenario.

(** ** Further notions used to state properties of the whole lifecycle *)

#[global] Instance Event_eq_dec : EqDecision Event.
Proof. solve_decision. Defined.

(** How many of the events [evs] are [ev]. *)
Definition count_event (ev : Event) (evs : list Event) : Z :=
  Z.of_nat (length (filter (fun x => x = ev) evs)).

(** The registry holds no empty list: [unregister] deletes the entry of a
    parent when its list runs empty. *)
Definition registry_wf (w : World) : Prop :=
  ∀ p ids, parents w !! p = Some ids → ids ≠ [].

(** One complete showing of an instance: [show] is set, every animated
    part enters, [show] is cleared, every animated part completes. *)
Definition full_cycle (m : Modal.t) : list Event :=
  DidUpdate true :: replicate (Z.to_nat (Modal.expectedCount m)) Entered
    ++ DidUpdate false :: replicate (Z.to_nat (Modal.expectedCount m)) Completed.

(** * Properties *)

(** ** Stage transitions on update *)

Lemma componentDidUpdate_stage {util : StyleUtility} (m : Modal.t) (w : World) :
  Modal.stage (Modal.componentDidUpdate m w).1 =
    match IProps.show (Modal.props m), Modal.stage m with
    | true, CLOSED => OPENING
    | false, OPENED => CLOSING
    | _, s => s
    end.
Proof.
  unfold Modal.componentDidUpdate.
  destruct (IProps.show (Modal.props m)), (Modal.stage m) eqn:Hstage; done.
Qed.

(** C1: [componentDidUpdate] moves CLOSED to OPENING when [show] is true,
    OPENED to CLOSING when [show] is false, and for every other pair of
    [show] and stage returns the instance and the world as they were. *)
Theorem componentDidUpdate_rule {util : StyleUtility} (m : Modal.t) (w : World) :
  Modal.stage (Modal.componentDidUpdate m w).1 =
    match IProps.show (Modal.props m), Modal.stage m with
    | true, CLOSED => OPENING
    | false, OPENED => CLOSING
    | _, s => s
    end
  ∧ match IProps.show (Modal.props m), Modal.stage m with
    | true, CLOSED | false, OPENED => True
    | _, _ => Modal.componentDidUpdate m w = (m, w)
    end.
Proof.
  split; [apply componentDidUpdate_stage|].
  unfold Modal.componentDidUpdate.
  destruct (IProps.show (Modal.props m)), (Modal.stage m) eqn:Hstage; done.
Qed.

(** ** The rendezvous counter *)

Section Rendezvous.
Context {util : StyleUtility}.

(** The open sequence changes no field of the instance but
    [prevFocused]. *)
Lemma onOpen_instance (m : Modal.t) (w : World) :
  (Modal.onOpen m w).1 =
    if IProps.noFocus (Modal.props m) then m
    else Modal.set_prevFocused (activeElement w) m.
Proof.
  unfold Modal.onOpen, Modal.storeFocus.
  destruct (IProps.noFocus (Modal.props m)); simpl; [done|].
  f_equal. unfold Modal.addDocEvents, Modal.register.
  repeat case_match; done.
Qed.

Lemma onOpen_stage (m : Modal.t) (w : World) :
  Modal.stage (Modal.onOpen m w).1 = Modal.stage m.
Proof. rewrite onOpen_instance. by case_match. Qed.

Lemma onOpen_animated (m : Modal.t) (w : World) :
  Modal.animated (Modal.onOpen m w).1 = Modal.animated m.
Proof. rewrite onOpen_instance. by case_match. Qed.

Lemma onOpen_props (m : Modal.t) (w : World) :
  Modal.props (Modal.onOpen m w).1 = Modal.props m.
Proof. rewrite onOpen_instance. by case_match. Qed.

Lemma onOpen_self (m : Modal.t) (w : World) :
  Modal.self (Modal.onOpen m w).1 = Modal.self m.
Proof. rewrite onOpen_instance. by case_match. Qed.

(** An opening signal that does not complete the rendezvous only counts. *)
Lemma onOpening_pending (m : Modal.t) (w : World) :
  Modal.animated m + 1 ≠ Modal.expectedCount m →
  Modal.onOpening m w = (Modal.set_animated (Modal.animated m + 1) m, w).
Proof.
  intros Hne. unfold Modal.onOpening. simpl.
  rewrite decide_False; [done|]. by unfold Modal.expectedCount in *.
Qed.

(** The one that completes it sets the stage and runs the open sequence. *)
Lemma onOpening_complete (m : Modal.t) (w : World) :
  Modal.animated m + 1 = Modal.expectedCount m →
  Modal.onOpening m w =
    Modal.onOpen
      (Modal.set_stage OPENED (Modal.set_animated (Modal.animated m + 1) m))
      (emit (SetState (Modal.self m) OPENED) w).
Proof.
  intros Heq. unfold Modal.onOpening. simpl.
  rewrite decide_True; [done|]. by unfold Modal.expectedCount in *.
Qed.

Lemma onClosing_pending (m : Modal.t) (w : World) :
  Modal.animated m - 1 ≠ 0 →
  Modal.onClosing m w = (Modal.set_animated (Modal.animated m - 1) m, w).
Proof.
  intros Hne. unfold Modal.onClosing. simpl. by rewrite decide_False.
Qed.

Lemma onClosing_complete (m : Modal.t) (w : World) :
  Modal.animated m - 1 = 0 →
  Modal.onClosing m w =
    (Modal.set_stage CLOSED (Modal.set_animated (Modal.animated m - 1) m),
     Modal.onClose
       (Modal.set_stage CLOSED (Modal.set_animated (Modal.animated m - 1) m))
       (emit (SetState (Modal.self m) CLOSED) w)).
Proof.
  intros Heq. unfold Modal.onClosing. simpl. by rewrite decide_True.
Qed.

Lemma onOpening_animated (m : Modal.t) (w : World) :
  Modal.animated (Modal.onOpening m w).1 = Modal.animated m + 1.
Proof.
  destruct (decide (Modal.animated m + 1 = Modal.expectedCount m)).
  - rewrite onOpening_complete, onOpen_animated; done.
  - rewrite onOpening_pending; done.
Qed.

Lemma onClosing_animated (m : Modal.t) (w : World) :
  Modal.animated (Modal.onClosing m w).1 = Modal.animated m - 1.
Proof.
  destruct (decide (Modal.animated m - 1 = 0)).
  - rewrite onClosing_complete; done.
  - rewrite onClosing_pending; done.
Qed.

Lemma onOpening_stage (m : Modal.t) (w : World) :
  Modal.stage (Modal.onOpening m w).1 =
    if decide (Modal.animated m + 1 = Modal.expectedCount m)
    then OPENED else Modal.stage m.
Proof.
  case_decide.
  - rewrite onOpening_complete, onOpen_stage; done.
  - rewrite onOpening_pending; done.
Qed.

Lemma onClosing_stage (m : Modal.t) (w : World) :
  Modal.stage (Modal.onClosing m w).1 =
    if decide (Modal.animated m - 1 = 0) then CLOSED else Modal.stage m.
Proof.
  case_decide.
  - rewrite onClosing_complete; done.
  - rewrite onClosing_pending; done.
Qed.

Lemma constructor_instance (r : Ref) (el : option Elem) (p : IProps.t) (w : World) :
  let m := (Modal.constructor r el p w).1 in
  Modal.self m = r ∧ Modal.props m = p ∧ Modal.animated m = 0 ∧
  Modal.prevFocused m = None ∧ Modal.portal m = el ∧
  Modal.parent m = default BODY (IProps.appendTo p) ∧
  Modal.stage m = (if IProps.show p then OPENED else CLOSED).
Proof. unfold Modal.constructor. repeat case_match; simplify_eq; done. Qed.

End Rendezvous.

(** ** What each method adds to the trace *)

Section Traces.
Context {util : StyleUtility}.

Lemma occurrences_app (e : Effect) (t1 t2 : list Effect) :
  occurrences e (t1 ++ t2) = (occurrences e t1 + occurrences e t2)%nat.
Proof. unfold occurrences. by rewrite filter_app, length_app. Qed.

Lemma occurrences_cons (e x : Effect) (t : list Effect) :
  occurrences e (x :: t) =
    ((if decide (x = e) then 1 else 0) + occurrences e t)%nat.
Proof. unfold occurrences. rewrite filter_cons. by case_decide. Qed.

Lemma fired_app (r : Ref) (s : Stage) (t1 t2 : list Effect) :
  fired r s (t1 ++ t2) = (fired r s t1 + fired r s t2)%nat.
Proof. apply occurrences_app. Qed.

Lemma trace_call_opt (m : Modal.t) (b : bool) (cb : Callback) (w : World) :
  trace (Modal.call_opt m b cb w) = trace w ++ call_trace m b cb.
Proof. destruct b; unfold Modal.call_opt; simpl; [done|]. by rewrite app_nil_r. Qed.

Lemma trace_disableScroll (m : Modal.t) (w : World) :
  trace (Modal.disableScroll m w) = trace w.
Proof. unfold Modal.disableScroll. repeat case_match; done. Qed.

Lemma trace_restoreScroll (m : Modal.t) (w : World) :
  trace (Modal.restoreScroll m w) = trace w.
Proof. unfold Modal.restoreScroll. repeat case_match; done. Qed.

Lemma trace_register (m : Modal.t) (w : World) :
  trace (Modal.register m w) = trace w.
Proof. unfold Modal.register. by case_match. Qed.

Lemma trace_unregister (m : Modal.t) (w : World) :
  trace (Modal.unregister m w) = trace w.
Proof. unfold Modal.unregister. repeat case_match; done. Qed.

Lemma trace_addDocEvents (m : Modal.t) (w : World) :
  trace (Modal.addDocEvents m w) = trace w.
Proof. unfold Modal.addDocEvents. by case_match. Qed.

Lemma trace_removeDocEvents (m : Modal.t) (w : World) :
  trace (Modal.removeDocEvents m w) = trace w.
Proof. unfold Modal.removeDocEvents. by case_match. Qed.

Lemma trace_onOpen (m : Modal.t) (w : World) :
  trace (Modal.onOpen m w).2 =
    trace w ++ focus_trace m
      ++ call_trace m (IProps.onOpen (Modal.props m)) CbOnOpen.
Proof.
  unfold Modal.onOpen, Modal.storeFocus, focus_trace.
  destruct (IProps.noFocus (Modal.props m)); cbn;
    rewrite trace_call_opt; cbn.
  - by rewrite trace_addDocEvents, trace_register.
  - destruct (Modal.portal m); cbn;
      rewrite trace_addDocEvents, trace_register, <- ?app_assoc; done.
Qed.

Lemma focusable_unchanged_close (m : Modal.t) (w : World) :
  focusable (Modal.removeDocEvents m (Modal.unregister m w)) = focusable w.
Proof.
  unfold Modal.removeDocEvents, Modal.unregister. repeat case_match; done.
Qed.

Lemma trace_onClose (m : Modal.t) (w : World) :
  trace (Modal.onClose m w) =
    trace w ++ restore_trace m w
      ++ call_trace m (IProps.onClose (Modal.props m)) CbOnClose.
Proof.
  unfold Modal.onClose, Modal.restoreFocus, restore_trace.
  rewrite trace_call_opt, trace_restoreScroll, focusable_unchanged_close.
  rewrite app_assoc. f_equal.
  destruct (Modal.prevFocused m); [case_decide|]; cbn;
    rewrite trace_removeDocEvents, trace_unregister, ?app_nil_r; done.
Qed.

Lemma trace_componentDidUpdate (m : Modal.t) (w : World) :
  trace (Modal.componentDidUpdate m w).2 =
    trace w ++
      match IProps.show (Modal.props m), Modal.stage m with
      | true, CLOSED =>
          SetState (Modal.self m) OPENING
            :: call_trace m (IProps.beforeOpen (Modal.props m)) CbBeforeOpen
      | false, OPENED =>
          SetState (Modal.self m) CLOSING
            :: call_trace m (IProps.beforeClose (Modal.props m)) CbBeforeClose
      | _, _ => []
      end.
Proof.
  unfold Modal.componentDidUpdate, Modal.beforeOpen, Modal.beforeClose.
  destruct (IProps.show (Modal.props m)), (Modal.stage m) eqn:Hstage;
    simpl; rewrite ?app_nil_r; try done.
  - rewrite trace_disableScroll, trace_call_opt. simpl.
    by rewrite <- app_assoc.
  - rewrite trace_call_opt. simpl. by rewrite <- app_assoc.
Qed.

Lemma fired_call_trace (r : Ref) (s : Stage) (m : Modal.t) (b : bool) (cb : Callback) :
  fired r s (call_trace m b cb) = 0%nat.
Proof. by destruct b. Qed.

Lemma fired_focus_trace (r : Ref) (s : Stage) (m : Modal.t) :
  fired r s (focus_trace m) = 0%nat.
Proof. unfold focus_trace. repeat case_match; done. Qed.

Lemma fired_restore_trace (r : Ref) (s : Stage) (m : Modal.t) (w : World) :
  fired r s (restore_trace m w) = 0%nat.
Proof. unfold restore_trace. repeat case_match; done. Qed.

Lemma fired_cons (r : Ref) (s : Stage) (e : Effect) (t : list Effect) :
  fired r s (e :: t) =
    ((if decide (e = SetState r s) then 1 else 0) + fired r s t)%nat.
Proof. apply occurrences_cons. Qed.

Lemma fired_one (r : Ref) (s s' : Stage) :
  fired r s [SetState r s'] = if decide (s' = s) then 1%nat else 0%nat.
Proof.
  rewrite fired_cons. repeat case_decide; simplify_eq; done.
Qed.

Lemma componentDidUpdate_instance (m : Modal.t) (w : World) :
  (Modal.componentDidUpdate m w).1 =
    Modal.set_stage (Modal.stage (Modal.componentDidUpdate m w).1) m.
Proof.
  unfold Modal.componentDidUpdate.
  destruct m as [r p i pa po pf a st]; simpl.
  destruct (IProps.show p), st; done.
Qed.

Lemma fired_componentDidUpdate (r : Ref) (s : Stage) (m : Modal.t) (w : World) :
  s = OPENED ∨ s = CLOSED →
  fired r s (trace (Modal.componentDidUpdate m w).2) = fired r s (trace w).
Proof.
  intros Hs. rewrite trace_componentDidUpdate, fired_app.
  destruct (IProps.show (Modal.props m)), (Modal.stage m);
    rewrite ?fired_cons, ?fired_call_trace;
    repeat case_decide; destruct Hs; simplify_eq;
    change (fired r _ []) with 0%nat; lia.
Qed.

Lemma trace_constructor (r : Ref) (el : option Elem) (p : IProps.t) (w : World) :
  trace (Modal.constructor r el p w).2 = trace w.
Proof. unfold Modal.constructor. repeat case_match; simplify_eq; done. Qed.

End Traces.

(** C2: an opening signal adds one to [animated], and sets the stage to
    OPENED (running the open sequence) exactly when the new count is the
    expected count, 1 with [noBackdrop] and 2 without; a closing signal
    takes one off and sets the stage to CLOSED (running the close sequence)
    exactly when the new count is 0.  A new instance with [noBackdrop]
    that is not yet OPENED is OPENED after one opening signal. *)
Theorem rendezvous_signals {util : StyleUtility} (m : Modal.t) (w : World) :
  Modal.expectedCount m = (if IProps.noBackdrop (Modal.props m) then 1 else 2)
  ∧ Modal.animated (Modal.onOpening m w).1 = Modal.animated m + 1
  ∧ (Modal.animated m + 1 = Modal.expectedCount m →
       Modal.stage (Modal.onOpening m w).1 = OPENED
       ∧ Modal.onOpening m w =
           Modal.onOpen
             (Modal.set_stage OPENED
                (Modal.set_animated (Modal.animated m + 1) m))
             (emit (SetState (Modal.self m) OPENED) w))
  ∧ (Modal.animated m + 1 ≠ Modal.expectedCount m →
       Modal.onOpening m w = (Modal.set_animated (Modal.animated m + 1) m, w))
  ∧ Modal.animated (Modal.onClosing m w).1 = Modal.animated m - 1
  ∧ (Modal.animated m - 1 = 0 →
       Modal.stage (Modal.onClosing m w).1 = CLOSED
       ∧ (Modal.onClosing m w).2 =
           Modal.onClose (Modal.onClosing m w).1
             (emit (SetState (Modal.self m) CLOSED) w))
  ∧ (Modal.animated m - 1 ≠ 0 →
       Modal.onClosing m w = (Modal.set_animated (Modal.animated m - 1) m, w))
  ∧ (∀ (r : Ref) (el : option Elem) (p : IProps.t) (b : bool),
       IProps.noBackdrop p = true →
       let s0 := step (Modal.constructor r el p w) (DidUpdate b) in
       fired r OPENED (trace s0.2) = fired r OPENED (trace w)
       ∧ Modal.stage (step s0 Entered).1 = OPENED
       ∧ fired r OPENED (trace (step s0 Entered).2) = S (fired r OPENED (trace s0.2))).
Proof.
  split; [done|]. split; [apply onOpening_animated|].
  split.
  { intros Heq. split; [|by apply onOpening_complete].
    rewrite onOpening_stage. by rewrite decide_True. }
  split; [apply onOpening_pending|].
  split; [apply onClosing_animated|].
  split. { intros Heq. by rewrite onClosing_complete. }
  split; [apply onClosing_pending|].
  intros r el p b Hnb s0.
  destruct (constructor_instance r el p w) as (Hself & Hprops & Hanim & _).
  pose proof (trace_constructor r el p w) as Htr.
  destruct (Modal.constructor r el p w) as [m0 w0]; simpl in *.
  set (m1 := Modal.set_props (IProps.with_show b (Modal.props m0)) m0) in *.
  assert (Hs0 : s0.1 = Modal.set_stage (Modal.stage s0.1) m1)
    by apply componentDidUpdate_instance.
  assert (Hexp : Modal.animated s0.1 + 1 = Modal.expectedCount s0.1).
  { rewrite Hs0. unfold Modal.expectedCount. simpl. by rewrite Hanim, Hprops, Hnb. }
  assert (Hr : Modal.self s0.1 = r) by (by rewrite Hs0).
  split; [|split].
  - unfold s0. rewrite fired_componentDidUpdate, Htr; auto.
  - destruct s0 as [m2 w2]; simpl in *.
    rewrite onOpening_stage. by rewrite decide_True.
  - destruct s0 as [m2 w2]; simpl in *.
    rewrite onOpening_complete, trace_onOpen by done. simpl.
    rewrite !fired_app, fired_call_trace, fired_focus_trace, Hr, fired_one.
    rewrite decide_True by done. lia.
Qed.

Lemma rendezvous_signals_witness :
  (Modal.animated Scenario.mountA.1 + 1 ≠ Modal.expectedCount Scenario.mountA.1
   ∧ Modal.onOpening Scenario.mountA.1 Scenario.mountA.2
     = (Modal.set_animated 1 Scenario.mountA.1, Scenario.mountA.2))
  ∧ (Modal.animated Scenario.halfA.1 + 1 = Modal.expectedCount Scenario.halfA.1
     ∧ Modal.stage
         (Modal.onOpening Scenario.halfA.1 Scenario.halfA.2).1 = OPENED)
  ∧ (Modal.animated Scenario.halfA.1 - 1 = 0
     ∧ Modal.stage
         (Modal.onClosing Scenario.halfA.1 Scenario.halfA.2).1 = CLOSED)
  ∧ (Modal.animated Scenario.mountA.1 - 1 ≠ 0
     ∧ Modal.onClosing Scenario.mountA.1 Scenario.mountA.2
       = (Modal.set_animated (-1) Scenario.mountA.1, Scenario.mountA.2))
  ∧ (IProps.noBackdrop Scenario.bare = true
     ∧ Modal.stage
         (step (util := hide_overflow)
            (step (util := hide_overflow) Scenario.mountBare (DidUpdate true))
            Entered).1 = OPENED).
Proof.
  pose proof (rendezvous_signals (util := hide_overflow)
                Scenario.mountA.1 Scenario.mountA.2)
    as (_ & _ & _ & Hpend & _ & _ & Hpend' & _).
  pose proof (rendezvous_signals (util := hide_overflow)
                Scenario.halfA.1 Scenario.halfA.2)
    as (_ & _ & Hopen & _ & _ & Hclose & _ & _).
  pose proof (rendezvous_signals (util := hide_overflow)
                Scenario.mountBare.1 Scenario.page)
    as (_ & _ & _ & _ & _ & _ & _ & Hbare).
  split; [split; [by vm_compute | apply Hpend; by vm_compute]|].
  split; [split; [by vm_compute | apply Hopen; by vm_compute]|].
  split; [split; [by vm_compute | apply Hclose; by vm_compute]|].
  split; [split; [by vm_compute | apply Hpend'; by vm_compute]|].
  split; [reflexivity|].
  apply (Hbare 4%nat (Some (Node 4)) Scenario.bare true). reflexivity.
Defined.

(** ** Runs of signals in one direction *)

Section Cycles.
Context {util : StyleUtility}.

Lemma run_cons (ev : Event) (evs : list Event) (s : Modal.t * World) :
  run (ev :: evs) s = run evs (step s ev).
Proof. reflexivity. Qed.

Lemma onOpening_props (m : Modal.t) (w : World) :
  Modal.props (Modal.onOpening m w).1 = Modal.props m.
Proof.
  destruct (decide (Modal.animated m + 1 = Modal.expectedCount m)).
  - rewrite onOpening_complete, onOpen_props; done.
  - rewrite onOpening_pending; done.
Qed.

Lemma onOpening_self (m : Modal.t) (w : World) :
  Modal.self (Modal.onOpening m w).1 = Modal.self m.
Proof.
  destruct (decide (Modal.animated m + 1 = Modal.expectedCount m)).
  - rewrite onOpening_complete, onOpen_self; done.
  - rewrite onOpening_pending; done.
Qed.

Lemma onClosing_instance (m : Modal.t) (w : World) :
  (Modal.onClosing m w).1 =
    let m' := Modal.set_animated (Modal.animated m - 1) m in
    if decide (Modal.animated m - 1 = 0) then Modal.set_stage CLOSED m'
    else m'.
Proof.
  simpl. case_decide.
  - rewrite onClosing_complete; done.
  - rewrite onClosing_pending; done.
Qed.

Lemma onClosing_props (m : Modal.t) (w : World) :
  Modal.props (Modal.onClosing m w).1 = Modal.props m.
Proof. rewrite onClosing_instance. simpl. by case_decide. Qed.

Lemma onClosing_self (m : Modal.t) (w : World) :
  Modal.self (Modal.onClosing m w).1 = Modal.self m.
Proof. rewrite onClosing_instance. simpl. by case_decide. Qed.

Lemma expectedCount_props (m m' : Modal.t) :
  Modal.props m' = Modal.props m → Modal.expectedCount m' = Modal.expectedCount m.
Proof. unfold Modal.expectedCount. by intros ->. Qed.

Lemma fired_onOpening (m : Modal.t) (w : World) :
  fired (Modal.self m) OPENED (trace (Modal.onOpening m w).2) =
    (fired (Modal.self m) OPENED (trace w)
     + if decide (Modal.animated m + 1 = Modal.expectedCount m)%Z then 1 else 0)%nat.
Proof.
  case_decide.
  - rewrite onOpening_complete, trace_onOpen by done. simpl.
    rewrite !fired_app, fired_call_trace, fired_focus_trace, fired_one.
    rewrite decide_True by done. lia.
  - rewrite onOpening_pending by done. simpl. lia.
Qed.

Lemma fired_onClosing (m : Modal.t) (w : World) :
  fired (Modal.self m) CLOSED (trace (Modal.onClosing m w).2) =
    (fired (Modal.self m) CLOSED (trace w)
     + if decide (Modal.animated m - 1 = 0)%Z then 1 else 0)%nat.
Proof.
  case_decide.
  - rewrite onClosing_complete by done. cbn [snd].
    rewrite trace_onClose. simpl.
    rewrite !fired_app, fired_call_trace, fired_restore_trace, fired_one.
    rewrite decide_True by done. lia.
  - rewrite onClosing_pending by done. simpl. lia.
Qed.

(** [n] opening signals in a row: the counter goes up by [n], and the
    stage is set to OPENED once, by the signal that makes the counter
    equal to the expected count, if there is one. *)
Lemma run_entered (n : nat) (m : Modal.t) (w : World) :
  let s := run (replicate n Entered) (m, w) in
  let hit := bool_decide (Modal.animated m < Modal.expectedCount m
                          ≤ Modal.animated m + Z.of_nat n) in
  Modal.props s.1 = Modal.props m
  ∧ Modal.self s.1 = Modal.self m
  ∧ Modal.animated s.1 = Modal.animated m + Z.of_nat n
  ∧ Modal.stage s.1 = (if hit then OPENED else Modal.stage m)
  ∧ fired (Modal.self m) OPENED (trace s.2) =
      (fired (Modal.self m) OPENED (trace w) + if hit then 1 else 0)%nat.
Proof.
  revert m w. induction n as [|n IH]; intros m w.
  - simpl. rewrite bool_decide_eq_false_2 by lia. repeat split; lia.
  - change (replicate (S n) Entered) with (Entered :: replicate n Entered).
    rewrite run_cons. change (step (m, w) Entered) with (Modal.onOpening m w).
    destruct (Modal.onOpening m w) as [m1 w1] eqn:Hstep.
    specialize (IH m1 w1). cbv zeta in IH |- *.
    pose proof (onOpening_props m w) as Hp.
    pose proof (onOpening_self m w) as Hr.
    pose proof (onOpening_animated m w) as Ha.
    pose proof (onOpening_stage m w) as Hst.
    pose proof (fired_onOpening m w) as Hf.
    rewrite Hstep in Hp, Hr, Ha, Hst, Hf. simpl in Hp, Hr, Ha, Hst, Hf.
    rewrite (expectedCount_props m m1 Hp), Hp, Hr, Ha, Hst, Hf in IH.
    destruct IH as (-> & -> & -> & -> & ->).
    repeat split; try lia;
      repeat (case_bool_decide || case_decide); try lia; done.
Qed.

(** The same for [n] closing signals and the stage CLOSED. *)
Lemma run_completed (n : nat) (m : Modal.t) (w : World) :
  let s := run (replicate n Completed) (m, w) in
  let hit := bool_decide (0 < Modal.animated m ≤ Z.of_nat n) in
  Modal.props s.1 = Modal.props m
  ∧ Modal.self s.1 = Modal.self m
  ∧ Modal.animated s.1 = Modal.animated m - Z.of_nat n
  ∧ Modal.stage s.1 = (if hit then CLOSED else Modal.stage m)
  ∧ fired (Modal.self m) CLOSED (trace s.2) =
      (fired (Modal.self m) CLOSED (trace w) + if hit then 1 else 0)%nat.
Proof.
  revert m w. induction n as [|n IH]; intros m w.
  - simpl. rewrite bool_decide_eq_false_2 by lia. repeat split; lia.
  - change (replicate (S n) Completed) with (Completed :: replicate n Completed).
    rewrite run_cons. change (step (m, w) Completed) with (Modal.onClosing m w).
    destruct (Modal.onClosing m w) as [m1 w1] eqn:Hstep.
    specialize (IH m1 w1). cbv zeta in IH |- *.
    pose proof (onClosing_props m w) as Hp.
    pose proof (onClosing_self m w) as Hr.
    pose proof (onClosing_animated m w) as Ha.
    pose proof (onClosing_stage m w) as Hst.
    pose proof (fired_onClosing m w) as Hf.
    rewrite Hstep in Hp, Hr, Ha, Hst, Hf. simpl in Hp, Hr, Ha, Hst, Hf.
    rewrite Hp, Hr, Ha, Hst, Hf in IH.
    destruct IH as (-> & -> & -> & -> & ->).
    repeat split; try lia;
      repeat (case_bool_decide || case_decide); try lia; done.
Qed.

End Cycles.

(** ** Closing twice *)

(** An id that is not in the list makes [indexOf] return -1, and
    [splice(-1, 1)] then takes the last element off. *)
Lemma indexOf_absent (ids : list Id) (x : Id) :
  x ∉ ids → indexOf ids x = -1.
Proof.
  intros Hx. unfold indexOf.
  destruct (list_find (λ y, y = x) ids) as [[i y]|] eqn:Hfind; [|done].
  apply list_find_Some in Hfind as (Hi & -> & _).
  exfalso. apply Hx. by eapply list_elem_of_lookup_2.
Qed.

Lemma splice_last (ids : list Id) :
  splice ids (-1) 1 = removelast ids.
Proof.
  unfold splice. simpl.
  destruct (decide (ids = [])) as [->|Hne]; [done|].
  assert (0 < length ids)%nat by (destruct ids; simpl; [done|lia]).
  rewrite Z.max_l, Z.min_l by lia.
  replace (Z.to_nat (Z.of_nat (length ids) + -1 + 1 `max` 0))
    with (length ids) by lia.
  replace (Z.to_nat (Z.of_nat (length ids) + -1)) with (pred (length ids)) by lia.
  rewrite drop_all, app_nil_r. symmetry. apply removelast_firstn_len.
Qed.

Lemma unregister_absent (m : Modal.t) (w : World) (ids : list Id) :
  parents w !! Modal.parent m = Some ids →
  Modal.id m ∉ ids →
  parents (Modal.unregister m w) =
    if decide (length (removelast ids) = 0%nat)
    then delete (Modal.parent m) (parents w)
    else <[Modal.parent m := removelast ids]> (parents w).
Proof.
  intros Hids Hid. unfold Modal.unregister.
  rewrite Hids, indexOf_absent, splice_last by done.
  by case_decide.
Qed.

(** C3: B closes through its animations and is then unmounted, so its close
    sequence runs twice.  The first run takes B's id 2 out of the list of
    [document.body]; the second finds no 2, removes the last element
    instead, which is A's id 1, and deletes the emptied list: A is still
    OPENED but no longer on top, so it stops answering Escape. *)
Theorem unmount_after_close_unregisters_sibling :
  parents Scenario.openB.2 !! BODY = Some [IdNum 2; IdNum 1]
  ∧ Modal.stage Scenario.closeB.1 = CLOSED
  ∧ parents Scenario.closeB.2 !! BODY = Some [IdNum 1]
  ∧ Modal.id Scenario.openA.1 = IdNum 1
  ∧ Modal.stage Scenario.openA.1 = OPENED
  ∧ Modal.isOnTop Scenario.openA.1 Scenario.closeB.2 = true
  ∧ parents Scenario.unmountB !! BODY = None
  ∧ Modal.isOnTop Scenario.openA.1 Scenario.unmountB = false.
Proof. vm_compute. repeat split. Qed.

(** ** The counter over a whole cycle *)

Lemma expectedCount_range (m : Modal.t) :
  1 ≤ Modal.expectedCount m ≤ 2.
Proof. unfold Modal.expectedCount. case_match; lia. Qed.

(** C4: a modal with a backdrop is mounted with [show] set, so its stage is
    OPENED and its counter 0 with no part entered yet.  [show] is cleared
    before either part enters: the stage becomes CLOSING, and the two exit
    signals of the cycle take the counter to -1 and -2.  It never is 0, so
    the stage is never set to CLOSED: the modal stays rendered in CLOSING,
    and setting [show] again changes nothing. *)
Theorem hidden_before_entered_never_closes :
  Modal.stage Scenario.mountShown.1 = OPENED
  ∧ Modal.animated Scenario.mountShown.1 = 0
  ∧ Modal.expectedCount Scenario.mountShown.1 = 2
  ∧ Modal.stage (run (util := hide_overflow) [DidUpdate false]
                   Scenario.mountShown).1 = CLOSING
  ∧ Modal.stage Scenario.hideShown.1 = CLOSING
  ∧ Modal.animated Scenario.hideShown.1 = -2
  ∧ fired 2%nat CLOSED (trace Scenario.hideShown.2) = 0%nat
  ∧ Modal.render Scenario.hideShown.1 ≠ None
  ∧ Modal.stage Scenario.reshow.1 = CLOSING
  ∧ trace Scenario.reshow.2 = trace Scenario.hideShown.2.
Proof. vm_compute. repeat split; congruence. Qed.

(** The same for any instance: a CLOSING cycle that starts from OPENED with
    the counter at 0 or below never sets the stage to CLOSED, however many
    exit signals arrive. *)
Lemma closing_from_unentered_never_closes {util : StyleUtility}
    (m : Modal.t) (w : World) (n : nat) :
  Modal.stage m = OPENED → Modal.animated m ≤ 0 →
  let s := run (DidUpdate false :: replicate n Completed) (m, w) in
  Modal.stage s.1 = CLOSING
  ∧ Modal.animated s.1 = Modal.animated m - Z.of_nat n
  ∧ fired (Modal.self m) CLOSED (trace s.2) = fired (Modal.self m) CLOSED (trace w).
Proof.
  intros Hst Ha. cbv zeta. rewrite run_cons.
  pose proof (componentDidUpdate_instance
                (Modal.set_props (IProps.with_show false (Modal.props m)) m) w)
    as Hm.
  pose proof (componentDidUpdate_stage
                (Modal.set_props (IProps.with_show false (Modal.props m)) m) w)
    as Hs.
  pose proof (fired_componentDidUpdate (Modal.self m) CLOSED
                (Modal.set_props (IProps.with_show false (Modal.props m)) m) w
                (or_intror eq_refl)) as Hf.
  cbn [step]. simpl in Hs. rewrite Hst in Hs.
  destruct (Modal.componentDidUpdate _ w) as [m1 w1]. simpl in *.
  destruct (run_completed n m1 w1) as (_ & _ & Hn & Hstage & Hfired).
  assert (Ha1 : Modal.animated m1 = Modal.animated m) by (by rewrite Hm).
  assert (Hr1 : Modal.self m1 = Modal.self m) by (by rewrite Hm).
  rewrite bool_decide_eq_false_2 in Hstage, Hfired by lia.
  rewrite Hstage, Hn, Ha1, <- Hr1, Hfired, Hr1, Hf, Hs.
  repeat split; lia.
Qed.

(** ** Scroll lock *)

(** Two numbers print alike only if they are the same number, and a string
    prints as itself: the owner recorded in the dataset confuses two ids
    only when one is a number and the other the string of its digits. *)
Lemma toString_num_inj (a b : N) :
  toString (IdNum a) = toString (IdNum b) → a = b.
Proof.
  simpl. intros Heq.
  assert (Hu : Some (N.to_uint a) = Some (N.to_uint b))
    by (by rewrite <- !NilEmpty.usu, Heq).
  rewrite <- (Unsigned.of_to a), <- (Unsigned.of_to b). congruence.
Qed.

Section ScrollLock.
Context {util : StyleUtility}.

Lemma element_of_set_element (e e' : Elem) (el : Element) (w : World) :
  element_of (set_element e el w) e' =
    if decide (e = e') then el else element_of w e'.
Proof.
  unfold element_of, set_element. simpl. rewrite lookup_insert.
  by case_decide.
Qed.

(** Taking the lock records the text the utility returned and the id. *)
Lemma disableScroll_acquires (a : Modal.t) (w : World) :
  IProps.allowScroll (Modal.props a) = false →
  dataset (element_of w (Modal.target a)) !! STYLE_CACHE_KEY = None →
  lock_held (Modal.disableScroll a w) (Modal.target a) (Modal.id a)
    (lib_disableScroll (Modal.target a)
       (style (element_of w (Modal.target a)))).1.
Proof.
  intros Hallow Hnone. unfold Modal.disableScroll, lock_held.
  rewrite Hallow, Hnone.
  destruct (lib_disableScroll _ _) as [prev st]. simpl.
  rewrite element_of_set_element, decide_True by done. simpl.
  split; [by rewrite lookup_insert_eq|].
  rewrite lookup_insert_ne by done. by rewrite lookup_insert_eq.
Qed.

(** A release in another name changes nothing. *)
Lemma restoreScroll_other (a b : Modal.t) (w : World) (cached : string) :
  lock_held w (Modal.target a) (Modal.id a) cached →
  Modal.target b = Modal.target a →
  toString (Modal.id b) ≠ toString (Modal.id a) →
  Modal.restoreScroll b w = w.
Proof.
  intros [Howner _] Htgt Hne. unfold Modal.restoreScroll.
  rewrite Htgt, Howner. rewrite decide_False; [done|]. congruence.
Qed.

(** The owner's release puts the cached text back and forgets the lock. *)
Lemma restoreScroll_owner (a : Modal.t) (w : World) (cached : string) :
  lock_held w (Modal.target a) (Modal.id a) cached →
  Modal.restoreScroll a w =
    set_element (Modal.target a)
      {| dataset := delete SCROLL_DISABLER_KEY
                      (delete STYLE_CACHE_KEY
                         (dataset (element_of w (Modal.target a))));
         style := if decide (cached = ""%string) then None else Some cached |}
      w.
Proof.
  intros [Howner Hcache]. unfold Modal.restoreScroll.
  rewrite Howner, Hcache, decide_True by done.
  unfold cssText. simpl. by case_decide.
Qed.

End ScrollLock.

(** C5, as stated, fails for two ids that differ as values but print
    alike.  A has the generated id 1 and holds the lock; S has the id "1".
    S is unmounted while closed: its release finds the owner "1", takes it
    for its own, clears the cache and removes the style that locks the
    scroll. *)
Lemma release_by_id_with_same_text :
  Modal.id Scenario.mountS.1 ≠ Modal.id Scenario.showA.1
  ∧ Modal.target Scenario.mountS.1 = Modal.target Scenario.showA.1
  ∧ lock_held Scenario.showA.2 ROOT (Modal.id Scenario.showA.1) ""
  ∧ style (element_of Scenario.showA.2 ROOT) = Some "overflow: hidden;"%string
  ∧ dataset (element_of Scenario.unmountS ROOT) !! STYLE_CACHE_KEY = None
  ∧ dataset (element_of Scenario.unmountS ROOT) !! SCROLL_DISABLER_KEY = None
  ∧ style (element_of Scenario.unmountS ROOT) = None.
Proof. vm_compute. repeat split; congruence. Qed.

(** C5, amended: while the lock of a container is held in A's name, a
    release by an instance B on that container whose id prints differently
    from A's ([toString]) leaves the world, and so the cached style, the
    owner and the inline style, as it was; a release by A sets the style to
    the text cached when the lock was taken, removes the style attribute
    when that text is empty, and deletes the cached style and the owner.
    Taking the lock caches the text the style utility returned. *)
Theorem scroll_lock_release {util : StyleUtility} (a b : Modal.t) (w : World) (cached : string) :
  (IProps.allowScroll (Modal.props a) = false →
   dataset (element_of w (Modal.target a)) !! STYLE_CACHE_KEY = None →
     lock_held (Modal.disableScroll a w) (Modal.target a) (Modal.id a)
       (lib_disableScroll (Modal.target a)
          (style (element_of w (Modal.target a)))).1)
  ∧ (lock_held w (Modal.target a) (Modal.id a) cached →
     (Modal.target b = Modal.target a →
      toString (Modal.id b) ≠ toString (Modal.id a) →
        Modal.restoreScroll b w = w)
     ∧ let el := element_of (Modal.restoreScroll a w) (Modal.target a) in
       style el = (if decide (cached = ""%string) then None else Some cached)
       ∧ dataset el !! STYLE_CACHE_KEY = None
       ∧ dataset el !! SCROLL_DISABLER_KEY = None
       ∧ (∀ k, k ≠ STYLE_CACHE_KEY → k ≠ SCROLL_DISABLER_KEY →
            dataset el !! k = dataset (element_of w (Modal.target a)) !! k)
       ∧ (∀ e, e ≠ Modal.target a →
            element_of (Modal.restoreScroll a w) e = element_of w e)).
Proof.
  split; [apply disableScroll_acquires|].
  intros Hheld. split; [by eapply restoreScroll_other|].
  rewrite (restoreScroll_owner a w cached Hheld). cbv zeta.
  rewrite element_of_set_element, decide_True by done. simpl.
  split; [done|]. split.
  { rewrite lookup_delete_ne by done. by rewrite lookup_delete_eq. }
  split; [by rewrite lookup_delete_eq|]. split.
  - intros k Hk1 Hk2. by rewrite !lookup_delete_ne.
  - intros e He. rewrite element_of_set_element, decide_False; done.
Qed.

Lemma scroll_lock_release_witness :
  (IProps.allowScroll (Modal.props Scenario.mountA.1) = false
   ∧ dataset (element_of Scenario.mountB.2 ROOT) !! STYLE_CACHE_KEY = None
   ∧ lock_held
       (Modal.disableScroll (util := hide_overflow)
          Scenario.mountA.1 Scenario.mountB.2)
       ROOT (IdNum 1) "")
  ∧ (lock_held Scenario.openB.2 ROOT (IdNum 1) ""
     ∧ Modal.target Scenario.openB.1 = Modal.target Scenario.openA.1
     ∧ toString (Modal.id Scenario.openB.1) ≠ toString (Modal.id Scenario.openA.1)
     ∧ Modal.restoreScroll Scenario.openB.1 Scenario.openB.2 = Scenario.openB.2
     ∧ style (element_of
                (Modal.restoreScroll Scenario.openA.1 Scenario.openB.2) ROOT)
       = None).
Proof.
  pose proof (scroll_lock_release (util := hide_overflow)
                Scenario.mountA.1 Scenario.mountB.1 Scenario.mountB.2 "")
    as [Hacq _].
  pose proof (scroll_lock_release (util := hide_overflow)
                Scenario.openA.1 Scenario.openB.1 Scenario.openB.2 "")
    as [_ Hrel].
  assert (Hheld : lock_held Scenario.openB.2 ROOT (IdNum 1) "")
    by (by vm_compute).
  split.
  - split; [reflexivity|]. split; [reflexivity|].
    apply (Hacq eq_refl eq_refl).
  - split; [exact Hheld|]. split; [reflexivity|]. split; [by vm_compute|].
    destruct (Hrel Hheld) as (Hother & Hstyle & _).
    split; [apply Hother; [reflexivity|by vm_compute]|].
    exact Hstyle.
Defined.

(** ** Escape *)

Lemma isOnTop_spec (m : Modal.t) (w : World) :
  Modal.isOnTop m w = true ↔
    ∃ rest, parents w !! Modal.parent m = Some (Modal.id m :: rest).
Proof.
  unfold Modal.isOnTop. split.
  - destruct (parents w !! Modal.parent m) as [[|x rest]|]; try done.
    intros Htop%bool_decide_eq_true. simpl in Htop.
    exists rest. congruence.
  - intros [rest ->]. by apply bool_decide_eq_true.
Qed.

(** C6: on an Escape keydown, [onKeydown] calls [preventDefault] and then
    [onCloseRequest] if and only if the registry has a list for the
    instance's parent whose first element is the instance's id; otherwise
    it leaves the event and the world as they were. *)
Theorem onKeydown_escape (m : Modal.t) (e : KeyboardEvent) (w : World) :
  key e = "Escape"%string →
  let topmost := ∃ rest, parents w !! Modal.parent m = Some (Modal.id m :: rest) in
  let r := Modal.onKeydown m e w in
  (defaultPrevented r.1 = true
   ∧ trace r.2 = trace w ++ [PreventDefault (Modal.self m);
                             Call (Modal.self m) CbOnCloseRequest]
   ↔ topmost)
  ∧ (¬ topmost → r = (e, w)).
Proof.
  intros Hkey topmost r. subst r. unfold Modal.onKeydown.
  rewrite bool_decide_eq_true_2 by done. simpl.
  destruct (Modal.isOnTop m w) eqn:Htop.
  - apply isOnTop_spec in Htop. simpl.
    split; [|done]. split; [done|]. intros _. split; [done|].
    by rewrite <- app_assoc.
  - assert (Hnot : ¬ topmost).
    { intros Ht. apply isOnTop_spec in Ht. congruence. }
    split; [|done]. split; [|done].
    intros [_ Htr]. simpl in Htr.
    apply (f_equal length) in Htr. rewrite length_app in Htr. simpl in Htr. lia.
Qed.

Lemma onKeydown_escape_witness :
  key {| key := "Escape"; defaultPrevented := false |} = "Escape"%string
  ∧ (∃ rest, parents Scenario.openB.2 !! BODY = Some (IdNum 2 :: rest))
  ∧ defaultPrevented
      (Modal.onKeydown Scenario.openB.1
         {| key := "Escape"; defaultPrevented := false |} Scenario.openB.2).1
    = true
  ∧ Modal.onKeydown Scenario.openA.1
      {| key := "Escape"; defaultPrevented := false |} Scenario.openB.2
    = ({| key := "Escape"; defaultPrevented := false |}, Scenario.openB.2).
Proof.
  pose proof (onKeydown_escape Scenario.openB.1
                {| key := "Escape"; defaultPrevented := false |}
                Scenario.openB.2 eq_refl) as [[_ Htop] _].
  pose proof (onKeydown_escape Scenario.openA.1
                {| key := "Escape"; defaultPrevented := false |}
                Scenario.openB.2 eq_refl) as [_ Hnot].
  assert (Hfront : ∃ rest, parents Scenario.openB.2 !! BODY
                           = Some (IdNum 2 :: rest))
    by (exists [IdNum 1]; by vm_compute).
  split; [reflexivity|]. split; [exact Hfront|]. split.
  - apply Htop. exact Hfront.
  - apply Hnot. intros [rest Hrest]. vm_compute in Hrest. congruence.
Defined.

(** ** Document listeners *)

Section Listeners.
Context {util : StyleUtility}.

Lemma listeners_componentDidUpdate (m : Modal.t) (w : World) :
  listeners (Modal.componentDidUpdate m w).2 = listeners w.
Proof.
  unfold Modal.componentDidUpdate, Modal.beforeOpen, Modal.beforeClose,
    Modal.disableScroll, Modal.call_opt, Modal.setState.
  repeat case_match; simplify_eq; done.
Qed.

Lemma listeners_onOpen (m : Modal.t) (w : World) :
  listeners (Modal.onOpen m w).2 =
    {[ (Keydown, Modal.self m) ]}
      ∪ (if IProps.withDocumentClicks (Modal.props m)
         then {[ (Click, Modal.self m) ]} ∪ listeners w else listeners w).
Proof.
  unfold Modal.onOpen, Modal.storeFocus, Modal.addDocEvents, Modal.register,
    Modal.call_opt, focus.
  repeat case_match; simplify_eq; done.
Qed.

Lemma listeners_onClose (m : Modal.t) (w : World) :
  listeners (Modal.onClose m w) =
    (if IProps.withDocumentClicks (Modal.props m)
     then listeners w ∖ {[ (Click, Modal.self m) ]} else listeners w)
      ∖ {[ (Keydown, Modal.self m) ]}.
Proof.
  unfold Modal.onClose, Modal.restoreScroll, Modal.restoreFocus,
    Modal.removeDocEvents, Modal.unregister, Modal.call_opt, focus.
  repeat case_match; simplify_eq; done.
Qed.

End Listeners.

(** ** The listeners and the last completed rendezvous *)

Section Tracking.
Context {util : StyleUtility}.

Lemma perform_cons (a : Action) (acts : list Action) (s : Modal.t * World) :
  perform (a :: acts) s = perform acts (act s a).
Proof. reflexivity. Qed.

(** A [step] is the action that re-renders with [show] changed. *)
Lemma step_is_act (s : Modal.t * World) (ev : Event) :
  step s ev =
    act s match ev with
          | DidUpdate b => Render (IProps.with_show b (Modal.props s.1))
          | Entered => OnEntered
          | Completed => OnCompleted
          end.
Proof. destruct s as [m w]. by destruct ev. Qed.

Lemma settled_app (r : Ref) (t1 t2 : list Effect) :
  settled r (t1 ++ t2) =
    match settled r t2 with Some s => Some s | None => settled r t1 end.
Proof.
  induction t1 as [|e t1 IH]; simpl.
  - by destruct (settled r t2).
  - rewrite IH. by destruct (settled r t2).
Qed.

Lemma settled_call_trace (r : Ref) (m : Modal.t) (b : bool) (cb : Callback) :
  settled r (call_trace m b cb) = None.
Proof. by destruct b. Qed.

Lemma settled_focus_trace (r : Ref) (m : Modal.t) :
  settled r (focus_trace m) = None.
Proof. unfold focus_trace. repeat case_match; done. Qed.

Lemma settled_restore_trace (r : Ref) (m : Modal.t) (w : World) :
  settled r (restore_trace m w) = None.
Proof. unfold restore_trace. repeat case_match; done. Qed.

Lemma settled_componentDidUpdate (r : Ref) (m : Modal.t) (w : World) :
  settled r (trace (Modal.componentDidUpdate m w).2) = settled r (trace w).
Proof.
  rewrite trace_componentDidUpdate, settled_app.
  destruct (IProps.show (Modal.props m)), (Modal.stage m); simpl;
    rewrite ?settled_call_trace; done.
Qed.

Lemma settled_onOpen (m : Modal.t) (w : World) :
  settled (Modal.self m)
    (trace (Modal.onOpen m (emit (SetState (Modal.self m) OPENED) w)).2)
  = Some OPENED.
Proof.
  rewrite trace_onOpen. simpl. rewrite !settled_app.
  rewrite settled_call_trace, settled_focus_trace. simpl.
  by rewrite decide_True.
Qed.

Lemma settled_onClose (m : Modal.t) (w : World) :
  settled (Modal.self m)
    (trace (Modal.onClose m (emit (SetState (Modal.self m) CLOSED) w)))
  = Some CLOSED.
Proof.
  rewrite trace_onClose. simpl. rewrite !settled_app.
  rewrite settled_call_trace, settled_restore_trace. simpl.
  by rewrite decide_True.
Qed.

Lemma act_listeners_track (r : Ref) (s : Modal.t * World) (a : Action) :
  listeners_track r s → listeners_track r (act s a).
Proof.
  destruct s as [m w]. intros (Hr & Hkey & Hst & Hclick). simpl in *.
  destruct a as [p| |]; cbn [act].
  - set (m1 := Modal.set_props p m).
    pose proof (componentDidUpdate_instance m1 w) as Hm.
    pose proof (componentDidUpdate_stage m1 w) as Hstage.
    pose proof (listeners_componentDidUpdate m1 w) as Hl.
    pose proof (settled_componentDidUpdate r m1 w) as Hs.
    destruct (Modal.componentDidUpdate m1 w) as [m2 w2]. simpl in *.
    unfold listeners_track. simpl. rewrite Hl, Hs.
    split; [by rewrite Hm|]. split; [done|]. split; [|done].
    intros Hcase. apply Hst. rewrite Hstage in Hcase.
    destruct (IProps.show p), (Modal.stage m); naive_solver.
  - destruct (decide (Modal.animated m + 1 = Modal.expectedCount m)).
    + rewrite onOpening_complete by done. unfold listeners_track.
      rewrite onOpen_self, onOpen_stage, listeners_onOpen. simpl.
      pose proof (settled_onOpen
                    (Modal.set_stage OPENED
                       (Modal.set_animated (Modal.animated m + 1) m)) w) as Hs.
      simpl in Hs. rewrite Hr in *. rewrite Hs.
      split; [done|]. split; [split; [done|set_solver]|].
      split; [by intros [?|?]|done].
    + by rewrite onOpening_pending.
  - destruct (decide (Modal.animated m - 1 = 0)).
    + rewrite onClosing_complete by done. unfold listeners_track. simpl.
      rewrite listeners_onClose. simpl.
      pose proof (settled_onClose
                    (Modal.set_stage CLOSED
                       (Modal.set_animated (Modal.animated m - 1) m)) w) as Hs.
      simpl in Hs. rewrite Hr in *. rewrite Hs.
      split; [done|]. split; [split; [set_solver|done]|].
      split; done.
    + by rewrite onClosing_pending.
Qed.

Lemma perform_listeners_track (r : Ref) (acts : list Action) (s : Modal.t * World) :
  listeners_track r s → listeners_track r (perform acts s).
Proof.
  revert s. induction acts as [|a acts IH]; intros s Hs; [done|].
  rewrite perform_cons. by apply IH, act_listeners_track.
Qed.

Lemma act_clicks_track (r : Ref) (wdc : bool) (s : Modal.t * World) (a : Action) :
  Modal.self s.1 = r →
  match a with Render p => IProps.withDocumentClicks p = wdc | _ => True end →
  clicks_track r wdc s → clicks_track r wdc (act s a).
Proof.
  destruct s as [m w]. intros Hr Ha (Hwdc & Hclick). simpl in *.
  destruct a as [p| |]; cbn [act].
  - set (m1 := Modal.set_props p m).
    pose proof (componentDidUpdate_instance m1 w) as Hm.
    pose proof (listeners_componentDidUpdate m1 w) as Hl.
    pose proof (settled_componentDidUpdate r m1 w) as Hs.
    destruct (Modal.componentDidUpdate m1 w) as [m2 w2]. simpl in *.
    unfold clicks_track. simpl. rewrite Hl, Hs.
    split; [by rewrite Hm|done].
  - destruct (decide (Modal.animated m + 1 = Modal.expectedCount m)).
    + rewrite onOpening_complete by done. unfold clicks_track.
      rewrite onOpen_props, listeners_onOpen. simpl.
      pose proof (settled_onOpen
                    (Modal.set_stage OPENED
                       (Modal.set_animated (Modal.animated m + 1) m)) w) as Hs.
      simpl in Hs. rewrite Hr in *. rewrite Hs, Hwdc.
      split; [done|]. destruct wdc; [set_solver|].
      split; [|by intros [? _]].
      intros [Hin|Hin]%elem_of_union; [set_solver|].
      by apply Hclick in Hin as [? _].
    + by rewrite onOpening_pending.
  - destruct (decide (Modal.animated m - 1 = 0)).
    + rewrite onClosing_complete by done. unfold clicks_track. simpl.
      rewrite listeners_onClose. simpl.
      pose proof (settled_onClose
                    (Modal.set_stage CLOSED
                       (Modal.set_animated (Modal.animated m - 1) m)) w) as Hs.
      simpl in Hs. rewrite Hr in *. rewrite Hs, Hwdc.
      split; [done|]. split; [|by intros [_ ?]].
      destruct wdc; [set_solver|].
      intros Hin. assert ((Click, r) ∈ listeners w) as Hin' by set_solver.
      by apply Hclick in Hin' as [? _].
    + by rewrite onClosing_pending.
Qed.

Lemma perform_clicks_track (r : Ref) (wdc : bool) (acts : list Action) (s : Modal.t * World) :
  keeps_clicks wdc acts → listeners_track r s →
  clicks_track r wdc s → clicks_track r wdc (perform acts s).
Proof.
  intros Hacts. revert s.
  induction Hacts as [|a acts Ha _ IH]; intros s Hs Hc; [done|].
  rewrite perform_cons. apply IH.
  - by apply act_listeners_track.
  - apply act_clicks_track; [apply Hs|done..].
Qed.

Lemma constructor_tracks (r : Ref) (el : option Elem) (p : IProps.t) (w : World) :
  detached r w → settled r (trace w) = None →
  listeners_track r (Modal.constructor r el p w)
  ∧ clicks_track r (IProps.withDocumentClicks p) (Modal.constructor r el p w).
Proof.
  intros [Hkey Hclick] Hnone.
  destruct (constructor_instance r el p w) as (Hr & Hp & _).
  pose proof (trace_constructor r el p w) as Ht.
  assert (Hl : listeners (Modal.constructor r el p w).2 = listeners w).
  { unfold Modal.constructor. repeat case_match; simplify_eq; done. }
  unfold listeners_track, clicks_track. rewrite Hr, Hp, Hl, Ht, Hnone.
  split; [split; [done|split; [done|]]|split; [done|]].
  - split; [done|]. by intros ?.
  - split; [done|]. by intros [_ ?].
Qed.

End Tracking.

(** C7, as stated, fails while the stage is OPENING, and for a modal
    mounted with [show] set: A has been told to show and is OPENING, the
    other modal was constructed OPENED, and the document has no listener. *)
Lemma no_listener_while_opening :
  Modal.stage Scenario.showA.1 = OPENING
  ∧ listeners Scenario.showA.2 = ∅
  ∧ Modal.stage Scenario.mountShown.1 = OPENED
  ∧ listeners Scenario.mountShown.2 = ∅.
Proof. vm_compute. repeat split. Qed.

(** C7, amended: the listeners follow the rendezvous, not the stage.
    Take an instance from its construction through any re-renders, with any
    props, and any animation signals.  Its keydown listener is attached
    exactly while the last stage set by its rendezvous is OPENED; so it is
    not attached while the stage is CLOSED or OPENING, and as long as no
    rendezvous has completed, as for an instance mounted with [show] set
    whose parts have not all entered, neither listener is attached.  While
    the re-renders keep [withDocumentClicks] at the value of the
    construction, the click listener is attached exactly when that value is
    true and the keydown listener is attached, and neither is attached
    while the stage is CLOSED or OPENING.  Step by step: the signal that
    completes the opening rendezvous sets the stage to OPENED and attaches
    the keydown listener and, with [withDocumentClicks] set at that moment,
    the click listener; the signal that completes the closing rendezvous
    sets the stage to CLOSED and removes the keydown listener and, with
    [withDocumentClicks] set at that moment, the click listener, as does
    unmounting; any other signal and [componentDidUpdate] leave the
    listeners as they are. *)
Theorem listeners_follow_open_and_close {util : StyleUtility}
    (r : Ref) (el : option Elem) (p : IProps.t) (w : World)
    (acts : list Action) :
  detached r w → settled r (trace w) = None →
  let s := perform acts (Modal.constructor r el p w) in
  let wdc := IProps.withDocumentClicks (Modal.props s.1) in
  ((Keydown, r) ∈ listeners s.2 ↔ settled r (trace s.2) = Some OPENED)
  ∧ (Modal.stage s.1 = CLOSED ∨ Modal.stage s.1 = OPENING →
     (Keydown, r) ∉ listeners s.2)
  ∧ (settled r (trace s.2) = None → detached r s.2)
  ∧ (keeps_clicks (IProps.withDocumentClicks p) acts →
     ((Click, r) ∈ listeners s.2 ↔
      IProps.withDocumentClicks p = true
      ∧ settled r (trace s.2) = Some OPENED)
     ∧ (Modal.stage s.1 = CLOSED ∨ Modal.stage s.1 = OPENING →
        detached r s.2))
  ∧ (Modal.animated s.1 + 1 = Modal.expectedCount s.1 →
     Modal.stage (act s OnEntered).1 = OPENED
     ∧ listeners (act s OnEntered).2 =
         {[ (Keydown, r) ]}
           ∪ (if wdc then {[ (Click, r) ]} ∪ listeners s.2
              else listeners s.2))
  ∧ (Modal.animated s.1 + 1 ≠ Modal.expectedCount s.1 →
     listeners (act s OnEntered).2 = listeners s.2)
  ∧ (Modal.animated s.1 - 1 = 0 →
     Modal.stage (act s OnCompleted).1 = CLOSED
     ∧ listeners (act s OnCompleted).2 =
         (if wdc then listeners s.2 ∖ {[ (Click, r) ]} else listeners s.2)
           ∖ {[ (Keydown, r) ]})
  ∧ (Modal.animated s.1 - 1 ≠ 0 →
     listeners (act s OnCompleted).2 = listeners s.2)
  ∧ (∀ p', listeners (act s (Render p')).2 = listeners s.2)
  ∧ listeners (Modal.componentWillUnmount s.1 s.2) =
      (if wdc then listeners s.2 ∖ {[ (Click, r) ]} else listeners s.2)
        ∖ {[ (Keydown, r) ]}.
Proof.
  intros Hdet Hnone s wdc.
  destruct (constructor_tracks r el p w Hdet Hnone) as [Htrack0 Hclicks0].
  pose proof (perform_listeners_track r acts _ Htrack0) as Htrack.
  fold s in Htrack. destruct Htrack as (Hr & Hkey & Hst & Hclick).
  assert (Hquiet : Modal.stage s.1 = CLOSED ∨ Modal.stage s.1 = OPENING →
                   (Keydown, r) ∉ listeners s.2).
  { intros Hcase Hin. by apply (Hst Hcase), Hkey. }
  split; [done|]. split; [done|]. split; [|split].
  { intros Hno. split.
    - intros Hin%Hkey. congruence.
    - intros Hin%Hclick. congruence. }
  { intros Hkeeps.
    pose proof (perform_clicks_track r _ acts _ Hkeeps Htrack0 Hclicks0)
      as [_ Hiff].
    fold s in Hiff. split; [done|]. intros Hcase.
    split; [by apply Hquiet|]. intros [_ Hopen]%Hiff. by apply (Hst Hcase). }
  subst wdc. destruct s as [m1 w1]. simpl in Hr. cbn [fst snd act].
  split; [|split; [|split; [|split; [|split]]]].
  - intros He. split; [by rewrite onOpening_stage, decide_True|].
    rewrite onOpening_complete, listeners_onOpen by done.
    simpl. by rewrite Hr.
  - intros He. by rewrite onOpening_pending.
  - intros He. split; [by rewrite onClosing_stage, decide_True|].
    rewrite onClosing_complete by done. simpl.
    rewrite listeners_onClose. simpl. by rewrite Hr.
  - intros He. by rewrite onClosing_pending.
  - intros p'. apply listeners_componentDidUpdate.
  - unfold Modal.componentWillUnmount. rewrite listeners_onClose.
    by rewrite Hr.
Qed.

Lemma listeners_follow_open_and_close_witness :
  (detached 4%nat Scenario.page
   ∧ settled 4%nat (trace Scenario.page) = None)
  ∧ (Modal.stage
       (perform (util := hide_overflow)
          [Render (IProps.with_show true Scenario.bare)]
          Scenario.mountBare).1 = OPENING
     ∧ (Keydown, 4%nat)
         ∉ listeners
             (perform (util := hide_overflow)
                [Render (IProps.with_show true Scenario.bare)]
                Scenario.mountBare).2)
  ∧ (keeps_clicks (IProps.withDocumentClicks Scenario.bare)
       [Render (IProps.with_show true Scenario.bare); OnEntered]
     ∧ settled 4%nat (trace Scenario.openBare.2) = Some OPENED
     ∧ (Keydown, 4%nat) ∈ listeners Scenario.openBare.2
     ∧ (Click, 4%nat) ∈ listeners Scenario.openBare.2)
  ∧ (Modal.animated Scenario.openBare.1 - 1 = 0
     ∧ listeners (act (util := hide_overflow) Scenario.openBare
                    OnCompleted).2 = ∅)
  ∧ (detached 2%nat Scenario.page
     ∧ Modal.stage Scenario.enteredShown.1 = OPENED
     ∧ settled 2%nat (trace Scenario.enteredShown.2) = None
     ∧ detached 2%nat Scenario.enteredShown.2).
Proof.
  assert (Hpage : detached 4%nat Scenario.page) by (split; set_solver).
  assert (Hpage2 : detached 2%nat Scenario.page) by (split; set_solver).
  assert (Hno : settled 4%nat (trace Scenario.page) = None) by reflexivity.
  assert (Hno2 : settled 2%nat (trace Scenario.page) = None) by reflexivity.
  pose proof (listeners_follow_open_and_close (util := hide_overflow)
                4%nat (Some (Node 4)) Scenario.bare Scenario.page
                [Render (IProps.with_show true Scenario.bare)] Hpage Hno)
    as Hopening.
  pose proof (listeners_follow_open_and_close (util := hide_overflow)
                4%nat (Some (Node 4)) Scenario.bare Scenario.page
                [Render (IProps.with_show true Scenario.bare); OnEntered]
                Hpage Hno) as Hopen.
  pose proof (listeners_follow_open_and_close (util := hide_overflow)
                2%nat (Some (Node 2))
                (IProps.with_show true IProps.defaults) Scenario.page
                [OnEntered] Hpage2 Hno2) as Hshown.
  cbv zeta in Hopening, Hopen, Hshown.
  destruct Hopening as (_ & Hquiet & _).
  destruct Hopen as (Hkey & _ & _ & Hclicks & _ & _ & Hclose & _).
  destruct Hshown as (_ & _ & Hnone & _).
  assert (Hkeeps : keeps_clicks (IProps.withDocumentClicks Scenario.bare)
                     [Render (IProps.with_show true Scenario.bare); OnEntered]).
  { repeat (first [apply Forall_nil_2 | apply Forall_cons_2; [done|]]). }
  assert (Hset : settled 4%nat (trace Scenario.openBare.2) = Some OPENED)
    by (by vm_compute).
  assert (Hunset : settled 2%nat (trace Scenario.enteredShown.2) = None)
    by (by vm_compute).
  split; [exact (conj Hpage Hno)|]. split; [|split; [|split]].
  - split; [reflexivity|]. apply Hquiet. right. reflexivity.
  - split; [exact Hkeeps|]. split; [exact Hset|].
    split; [exact (proj2 Hkey Hset)|].
    destruct (Hclicks Hkeeps) as [Hiff _].
    exact (proj2 Hiff (conj eq_refl Hset)).
  - split; [reflexivity|]. destruct (Hclose eq_refl) as [_ Hgone].
    etrans; [exact Hgone|]. by vm_compute.
  - split; [exact Hpage2|]. split; [reflexivity|]. split; [exact Hunset|].
    exact (Hnone Hunset).
Defined.

(** When [withDocumentClicks] changes between the open and the close
    sequence: [removeDocEvents] tests the props of the moment, so a click
    listener attached with the flag set stays attached when the modal
    closes after a re-render has cleared it.  (Its handler [onDocClick]
    tests the flag too, and does nothing while it stays cleared.) *)
Lemma click_listener_outlives_cleared_flag :
  Modal.stage Scenario.closeUnclicked.1 = CLOSED
  ∧ listeners Scenario.closeUnclicked.2 = {[ (Click, 4%nat) ]}.
Proof. vm_compute. split; reflexivity. Qed.

(** ** Focus memory *)

Section Focus.
Context {util : StyleUtility}.

Lemma activeElement_onOpen (m : Modal.t) (w : World) :
  activeElement (Modal.onOpen m w).2 =
    if IProps.noFocus (Modal.props m) then activeElement w
    else match Modal.portal m with
         | Some e => Some e
         | None => activeElement w
         end.
Proof.
  unfold Modal.onOpen, Modal.storeFocus, Modal.addDocEvents, Modal.register,
    Modal.call_opt, focus.
  destruct m as [r p i pa po pf a st]; simpl.
  repeat case_match; simpl in *; simplify_eq; done.
Qed.

Lemma prevFocused_onOpen (m : Modal.t) (w : World) :
  Modal.prevFocused (Modal.onOpen m w).1 =
    if IProps.noFocus (Modal.props m) then Modal.prevFocused m
    else activeElement w.
Proof. rewrite onOpen_instance. by case_match. Qed.

Lemma activeElement_onClose (m : Modal.t) (w : World) :
  activeElement (Modal.onClose m w) =
    match Modal.prevFocused m with
    | Some e => if decide (e ∈ focusable w) then Some e else activeElement w
    | None => activeElement w
    end.
Proof.
  unfold Modal.onClose, Modal.restoreScroll, Modal.restoreFocus,
    Modal.removeDocEvents, Modal.unregister, Modal.call_opt, focus.
  repeat case_match; simplify_eq; done.
Qed.

End Focus.

(** C8, as stated, fails in its last part: the close sequence does not
    clear [prevFocused].  B took the focus from A's root (node 0) when it
    opened and gave it back when it closed; closed, it still holds node 0,
    and when it is unmounted after the user has moved the focus to the
    button, its close sequence runs again and moves the focus back to
    node 0. *)
Lemma prevFocused_kept_after_close :
  Modal.stage Scenario.closeB.1 = CLOSED
  ∧ Modal.prevFocused Scenario.closeB.1 = Some (Node 0)
  ∧ activeElement Scenario.clickButton = Some (Node 7)
  ∧ activeElement Scenario.unmountLater = Some (Node 0).
Proof. vm_compute. repeat split. Qed.

(** C8, amended: when the rendezvous sets the stage to OPENED and
    [noFocus] is not set, [prevFocused] becomes the element that was active
    just before, and the focus moves to the modal's root element; with
    [noFocus] neither changes.  When the rendezvous sets the stage to
    CLOSED and [prevFocused] holds an element with a [focus] function, the
    focus moves to it, and otherwise stays.  No signal clears
    [prevFocused]: after a closing signal it is what it was. *)
Theorem focus_memory (m : Modal.t) (w : World) :
  (Modal.animated m + 1 = Modal.expectedCount m →
     let s := Modal.onOpening m w in
     (IProps.noFocus (Modal.props m) = false →
        Modal.prevFocused s.1 = activeElement w
        ∧ (∀ e, Modal.portal m = Some e →
             activeElement s.2 = Some e
             ∧ ∃ t, trace s.2 =
                      trace w ++ SetState (Modal.self m) OPENED :: Focus e :: t))
     ∧ (IProps.noFocus (Modal.props m) = true →
        Modal.prevFocused s.1 = Modal.prevFocused m
        ∧ activeElement s.2 = activeElement w))
  ∧ (Modal.animated m - 1 = 0 →
     let s := Modal.onClosing m w in
     (∀ e, Modal.prevFocused m = Some e → e ∈ focusable w →
        activeElement s.2 = Some e)
     ∧ (Modal.prevFocused m = None → activeElement s.2 = activeElement w)
     ∧ (∀ e, Modal.prevFocused m = Some e → e ∉ focusable w →
          activeElement s.2 = activeElement w))
  ∧ Modal.prevFocused (Modal.onClosing m w).1 = Modal.prevFocused m.
Proof.
  split; [|split].
  - intros He. cbv zeta. rewrite onOpening_complete by done.
    rewrite prevFocused_onOpen, activeElement_onOpen, trace_onOpen.
    unfold focus_trace. simpl. split; intros ->; [|done].
    split; [done|]. intros e ->. split; [done|].
    eexists. rewrite <- app_assoc. simpl. done.
  - intros He. cbv zeta. rewrite onClosing_complete by done. cbn [snd].
    rewrite activeElement_onClose. simpl.
    split; [|split].
    + intros e -> Hin. by rewrite decide_True.
    + by intros ->.
    + intros e -> Hnin. by rewrite decide_False.
  - rewrite onClosing_instance. simpl. by case_decide.
Qed.

Lemma focus_memory_witness :
  (Modal.animated Scenario.halfA.1 + 1 = Modal.expectedCount Scenario.halfA.1
   ∧ IProps.noFocus (Modal.props Scenario.halfA.1) = false
   ∧ Modal.prevFocused (Modal.onOpening Scenario.halfA.1 Scenario.halfA.2).1
     = Some (Node 7)
   ∧ activeElement (Modal.onOpening Scenario.halfA.1 Scenario.halfA.2).2
     = Some (Node 0))
  ∧ (Modal.animated (run (util := hide_overflow)
                       [DidUpdate false; Completed] Scenario.openB).1 - 1 = 0
     ∧ Modal.prevFocused (run (util := hide_overflow)
                            [DidUpdate false; Completed] Scenario.openB).1
       = Some (Node 0)
     ∧ Node 0 ∈ focusable (run (util := hide_overflow)
                             [DidUpdate false; Completed] Scenario.openB).2
     ∧ activeElement Scenario.closeB.2 = Some (Node 0)).
Proof.
  pose proof (focus_memory Scenario.halfA.1 Scenario.halfA.2) as [Hopen _].
  pose proof (focus_memory
                (run (util := hide_overflow)
                   [DidUpdate false; Completed] Scenario.openB).1
                (run (util := hide_overflow)
                   [DidUpdate false; Completed] Scenario.openB).2)
    as (_ & Hclose & _).
  split.
  - split; [reflexivity|]. split; [reflexivity|].
    destruct (Hopen eq_refl) as [Hfocus _].
    destruct (Hfocus eq_refl) as [Hprev Hroot].
    split; [exact Hprev|]. apply (Hroot (Node 0) eq_refl).
  - split; [reflexivity|]. split; [reflexivity|].
    assert (Hin : Node 0 ∈ focusable
                    (run (util := hide_overflow)
                       [DidUpdate false; Completed] Scenario.openB).2)
      by (vm_compute; set_solver).
    split; [exact Hin|].
    destruct (Hclose eq_refl) as (Hrestore & _).
    apply (Hrestore (Node 0) eq_refl Hin).
Defined.

(** ** Render projection *)

(** C9: [render] returns null when the stage is CLOSED; otherwise it
    returns a body and, unless [noBackdrop] is set, a backdrop, each with
    [show] equal to [stage !== CLOSING]; this includes the first render of
    an instance constructed with [show] set, whose stage is OPENED. *)
Theorem render_projection (m : Modal.t) :
  (Modal.stage m = CLOSED → Modal.render m = None)
  ∧ (Modal.stage m ≠ CLOSED →
     ∃ rd, Modal.render m = Some rd
       ∧ a_show (body rd) = negb (bool_decide (Modal.stage m = CLOSING))
       ∧ (IProps.noBackdrop (Modal.props m) = true → backdrop rd = None)
       ∧ (IProps.noBackdrop (Modal.props m) = false →
          ∃ bd, backdrop rd = Some bd
            ∧ a_show bd = negb (bool_decide (Modal.stage m = CLOSING))))
  ∧ (∀ (r : Ref) (el : option Elem) (p : IProps.t) (w : World),
       IProps.show p = true →
       ∃ rd, Modal.render (Modal.constructor r el p w).1 = Some rd
         ∧ a_show (body rd) = true
         ∧ (∀ bd, backdrop rd = Some bd → a_show bd = true)).
Proof.
  split; [|split].
  - intros Hst. unfold Modal.render. by rewrite decide_True.
  - intros Hst. unfold Modal.render. rewrite decide_False by done.
    eexists. split; [done|]. simpl. split; [done|].
    split; intros ->; [done|]. by eexists.
  - intros r el p w Hshow.
    destruct (constructor_instance r el p w) as (_ & _ & _ & _ & _ & _ & Hst).
    rewrite Hshow in Hst. unfold Modal.render.
    rewrite Hst, decide_False by done.
    eexists. split; [done|]. simpl. split; [done|].
    destruct (IProps.noBackdrop _); [done|]. by intros bd [= <-].
Qed.

Lemma render_projection_witness :
  (Modal.stage Scenario.mountA.1 = CLOSED
   ∧ Modal.render Scenario.mountA.1 = None)
  ∧ (Modal.stage Scenario.halfA.1 ≠ CLOSED
     ∧ IProps.noBackdrop (Modal.props Scenario.halfA.1) = false
     ∧ ∃ rd bd, Modal.render Scenario.halfA.1 = Some rd
         ∧ a_show (body rd) = true
         ∧ backdrop rd = Some bd ∧ a_show bd = true)
  ∧ (IProps.show (IProps.with_show true IProps.defaults) = true
     ∧ ∃ rd, Modal.render Scenario.mountShown.1 = Some rd
         ∧ a_show (body rd) = true).
Proof.
  pose proof (render_projection Scenario.mountA.1) as [Hclosed _].
  pose proof (render_projection Scenario.halfA.1) as (_ & Hopen & Hmount).
  split; [split; [reflexivity|apply Hclosed; reflexivity]|]. split.
  - assert (Hne : Modal.stage Scenario.halfA.1 ≠ CLOSED) by (by vm_compute).
    split; [exact Hne|]. split; [reflexivity|].
    destruct (Hopen Hne) as (rd & Hrd & Hbody & _ & Hbd).
    destruct (Hbd eq_refl) as (bd & Hsome & Hshow).
    exists rd, bd. split; [exact Hrd|]. split; [exact Hbody|].
    split; [exact Hsome|exact Hshow].
  - split; [reflexivity|].
    destruct (Hmount 2%nat (Some (Node 2))
                (IProps.with_show true IProps.defaults) Scenario.page eq_refl)
      as (rd & Hrd & Hbody & _).
    exists rd. split; [exact Hrd|exact Hbody].
Defined.

(** ** A modal shown on mount *)

Section ShownOnMount.
Context {util : StyleUtility}.

Lemma with_show_same (p : IProps.t) :
  IProps.with_show (IProps.show p) p = p.
Proof. by destruct p. Qed.

Lemma set_props_same (m : Modal.t) : Modal.set_props (Modal.props m) m = m.
Proof. by destruct m. Qed.

(** Shown and OPENED, an update with [show] still set does nothing. *)
Lemma step_update_shown (m : Modal.t) (w : World) :
  IProps.show (Modal.props m) = true → Modal.stage m = OPENED →
  step (m, w) (DidUpdate true) = (m, w).
Proof.
  intros Hshow Hst. simpl.
  rewrite <- Hshow, with_show_same, set_props_same.
  unfold Modal.componentDidUpdate. by rewrite Hshow, Hst.
Qed.

Lemma elements_onOpen (m : Modal.t) (w : World) :
  elements (Modal.onOpen m w).2 = elements w.
Proof.
  unfold Modal.onOpen, Modal.storeFocus, Modal.addDocEvents, Modal.register,
    Modal.call_opt, focus.
  destruct m as [r p i pa po pf a st]; simpl.
  repeat case_match; simpl in *; simplify_eq; done.
Qed.

Lemma parents_onOpen (m : Modal.t) (w : World) :
  parents (Modal.onOpen m w).2 =
    <[Modal.parent m :=
        Modal.id m :: default [] (parents w !! Modal.parent m)]> (parents w).
Proof.
  unfold Modal.onOpen, Modal.storeFocus, Modal.addDocEvents, Modal.register,
    Modal.call_opt, focus.
  destruct m as [r p i pa po pf a st]; simpl.
  repeat case_match; simpl in *; simplify_eq; done.
Qed.

Lemma occurrences_call_trace (e : Effect) (m : Modal.t) (b : bool) (cb : Callback) :
  e ≠ Call (Modal.self m) cb → occurrences e (call_trace m b cb) = 0%nat.
Proof.
  intros Hne. destruct b; [|done]. simpl.
  rewrite occurrences_cons, decide_False; done.
Qed.

Lemma occurrences_focus_trace (e : Effect) (m : Modal.t) :
  (∀ x, e ≠ Focus x) → occurrences e (focus_trace m) = 0%nat.
Proof.
  intros Hne. unfold focus_trace. repeat case_match; try done.
  rewrite occurrences_cons, decide_False; [done|]. intros Heq.
  by eapply Hne.
Qed.

(** An opening signal calls no [beforeOpen] and sets no stage OPENING. *)
Lemma occurrences_onOpening (e : Effect) (m : Modal.t) (w : World) :
  e = Call (Modal.self m) CbBeforeOpen ∨ e = SetState (Modal.self m) OPENING →
  occurrences e (trace (Modal.onOpening m w).2) = occurrences e (trace w).
Proof.
  intros He.
  destruct (decide (Modal.animated m + 1 = Modal.expectedCount m)).
  - rewrite onOpening_complete, trace_onOpen by done. simpl.
    rewrite !occurrences_app, occurrences_cons, occurrences_focus_trace,
      occurrences_call_trace; simpl.
    + change (occurrences e []) with 0%nat.
      rewrite decide_False; [lia|]. by destruct He as [->| ->].
    + by destruct He as [->| ->].
    + by destruct He as [->| ->].
  - by rewrite onOpening_pending.
Qed.

Lemma elements_onOpening (m : Modal.t) (w : World) :
  elements (Modal.onOpening m w).2 = elements w.
Proof.
  destruct (decide (Modal.animated m + 1 = Modal.expectedCount m)).
  - rewrite onOpening_complete, elements_onOpen; done.
  - by rewrite onOpening_pending.
Qed.

(** While [show] stays set, updates and opening signals keep the stage
    OPENED, take no scroll lock and call no [beforeOpen]. *)
Lemma run_shown (evs : list Event) (m : Modal.t) (w : World) :
  Forall (λ ev, ev = DidUpdate true ∨ ev = Entered) evs →
  IProps.show (Modal.props m) = true → Modal.stage m = OPENED →
  let s := run evs (m, w) in
  Modal.stage s.1 = OPENED
  ∧ fired (Modal.self m) OPENING (trace s.2)
    = fired (Modal.self m) OPENING (trace w)
  ∧ called (Modal.self m) CbBeforeOpen (trace s.2)
    = called (Modal.self m) CbBeforeOpen (trace w)
  ∧ elements s.2 = elements w.
Proof.
  intros Hevs. revert m w.
  induction Hevs as [|ev evs [-> | ->] _ IH]; intros m w Hshow Hst; [done| |].
  - rewrite run_cons, step_update_shown by done. by apply IH.
  - rewrite run_cons. change (step (m, w) Entered) with (Modal.onOpening m w).
    pose proof (onOpening_props m w) as Hp.
    pose proof (onOpening_self m w) as Hr.
    pose proof (onOpening_stage m w) as Hs.
    pose proof (elements_onOpening m w) as He.
    pose proof (occurrences_onOpening _ m w (or_introl eq_refl)) as Hc.
    pose proof (occurrences_onOpening _ m w (or_intror eq_refl)) as Hf.
    destruct (Modal.onOpening m w) as [m1 w1]. simpl in *.
    specialize (IH m1 w1). cbv zeta in IH |- *.
    unfold fired, called in *.
    rewrite Hp, Hr, He, Hc, Hf in IH. apply IH; [done|].
    rewrite Hs, Hst. by case_decide.
Qed.

(** As many opening signals as parts are animated amount to the open
    sequence, run once. *)
Lemma run_to_opened (m : Modal.t) (w : World) :
  Modal.animated m = 0 →
  run (replicate (Z.to_nat (Modal.expectedCount m)) Entered) (m, w) =
    Modal.onOpen
      (Modal.set_stage OPENED (Modal.set_animated (Modal.expectedCount m) m))
      (emit (SetState (Modal.self m) OPENED) w).
Proof.
  intros Ha.
  assert (Hexp : Modal.expectedCount m =
                   if IProps.noBackdrop (Modal.props m) then 1 else 2) by done.
  destruct (IProps.noBackdrop (Modal.props m)) eqn:Hnb; rewrite Hexp.
  - change (run _ _) with (Modal.onOpening m w).
    rewrite onOpening_complete by lia. by rewrite Ha.
  - change (run _ _) with (step (Modal.onOpening m w) Entered).
    rewrite onOpening_pending by lia. cbn [step].
    rewrite onOpening_complete
      by (unfold Modal.expectedCount; simpl; rewrite Hnb; lia).
    simpl. by rewrite Ha.
Qed.

Lemma constructor_world (r : Ref) (el : option Elem) (p : IProps.t) (w : World) :
  let w' := (Modal.constructor r el p w).2 in
  parents w' = parents w ∧ elements w' = elements w
  ∧ listeners w' = listeners w ∧ activeElement w' = activeElement w
  ∧ focusable w' = focusable w ∧ trace w' = trace w.
Proof. unfold Modal.constructor. repeat case_match; simplify_eq; done. Qed.

End ShownOnMount.

(** C10: an instance constructed with [show] set starts in the stage
    OPENED.  While [show] stays set, no update and no opening signal sets
    the stage to OPENING, calls [beforeOpen] or touches an element's
    dataset or style, so no scroll lock is taken.  Once as many opening
    signals have come as parts are animated, the instance is registered at
    the front of its parent's list, its keydown listener (and with
    [withDocumentClicks] its click listener) is attached, the focus is
    captured unless [noFocus] is set, and [onOpen] is called. *)
Theorem shown_on_mount {util : StyleUtility}
    (r : Ref) (el : option Elem) (p : IProps.t) (w : World) :
  IProps.show p = true →
  let s0 := Modal.constructor r el p w in
  Modal.stage s0.1 = OPENED
  ∧ (∀ evs, Forall (λ ev, ev = DidUpdate true ∨ ev = Entered) evs →
       let s := run evs s0 in
       Modal.stage s.1 = OPENED
       ∧ fired r OPENING (trace s.2) = fired r OPENING (trace w)
       ∧ called r CbBeforeOpen (trace s.2) = called r CbBeforeOpen (trace w)
       ∧ elements s.2 = elements w)
  ∧ (let s := run (replicate (Z.to_nat (Modal.expectedCount s0.1)) Entered) s0 in
     parents s.2 !! Modal.parent s0.1 =
       Some (Modal.id s0.1 :: default [] (parents w !! Modal.parent s0.1))
     ∧ (Keydown, r) ∈ listeners s.2
     ∧ (IProps.withDocumentClicks p = true → (Click, r) ∈ listeners s.2)
     ∧ (IProps.noFocus p = false →
          Modal.prevFocused s.1 = activeElement w
          ∧ ∀ e, el = Some e → activeElement s.2 = Some e)
     ∧ trace s.2 =
         trace w ++ [SetState r OPENED] ++ focus_trace s0.1
           ++ call_trace s0.1 (IProps.onOpen p) CbOnOpen).
Proof.
  intros Hshow s0.
  destruct (constructor_instance r el p w)
    as (Hr & Hp & Ha & Hpf & Hel & Hpa & Hst).
  destruct (constructor_world r el p w) as (Hwp & Hwe & Hwl & Hwa & _ & Hwt).
  rewrite Hshow in Hst. fold s0 in Hr, Hp, Ha, Hpf, Hel, Hpa, Hst.
  fold s0 in Hwp, Hwe, Hwl, Hwa, Hwt.
  destruct s0 as [m0 w0]. simpl in *.
  split; [done|]. split.
  - intros evs Hevs.
    pose proof (run_shown evs m0 w0 Hevs) as Hrun.
    rewrite Hp, Hr, Hwt, Hwe in Hrun. by apply Hrun.
  - rewrite run_to_opened by done.
    rewrite parents_onOpen, listeners_onOpen, prevFocused_onOpen,
      activeElement_onOpen, trace_onOpen. simpl.
    rewrite Hp, Hr, Hwp, Hwa, Hwt, Hel. split; [by rewrite lookup_insert_eq|].
    split; [set_solver|]. split; [intros ->; set_solver|].
    split; [|by rewrite <- app_assoc].
    intros ->. split; [done|]. by intros e ->.
Qed.

Lemma shown_on_mount_witness :
  IProps.show (IProps.with_show true IProps.defaults) = true
  ∧ Modal.stage Scenario.mountShown.1 = OPENED
  ∧ called 2%nat CbBeforeOpen
      (trace (run (util := hide_overflow)
                [DidUpdate true; Entered; DidUpdate true; Entered]
                Scenario.mountShown).2) = 0%nat
  ∧ elements (run (util := hide_overflow)
                [DidUpdate true; Entered; DidUpdate true; Entered]
                Scenario.mountShown).2 = ∅
  ∧ parents (run (util := hide_overflow) [Entered; Entered]
               Scenario.mountShown).2 !! BODY = Some [IdNum 1]
  ∧ (Keydown, 2%nat)
      ∈ listeners (run (util := hide_overflow) [Entered; Entered]
                     Scenario.mountShown).2.
Proof.
  pose proof (shown_on_mount (util := hide_overflow) 2%nat (Some (Node 2))
                (IProps.with_show true IProps.defaults) Scenario.page eq_refl)
    as (Hstage & Hquiet & Hopened).
  split; [reflexivity|]. split; [exact Hstage|].
  destruct (Hquiet [DidUpdate true; Entered; DidUpdate true; Entered])
    as (_ & _ & Hcalled & Helements).
  { repeat (first [apply Forall_nil_2 | apply Forall_cons_2; [by auto|]]). }
  split; [exact Hcalled|]. split; [exact Helements|].
  destruct Hopened as (Hparents & Hkey & _).
  split; [exact Hparents|exact Hkey].
Defined.

(** * Further properties of the code *)

(** ** The registry *)

Lemma indexOf_first (l1 l2 : list Id) (x : Id) :
  x ∉ l1 → indexOf (l1 ++ x :: l2) x = Z.of_nat (length l1).
Proof.
  intros Hx. unfold indexOf.
  rewrite list_find_app_r.
  - simpl. rewrite decide_True by done. simpl. f_equal.
  - apply list_find_None, Forall_forall. by intros y Hy ->.
Qed.

Lemma splice_one (l1 l2 : list Id) (x : Id) :
  splice (l1 ++ x :: l2) (Z.of_nat (length l1)) 1 = l1 ++ l2.
Proof.
  unfold splice. rewrite length_app. simpl.
  rewrite (proj2 (Z.ltb_ge _ _)) by lia.
  rewrite Z.min_l, Z.max_l, Z.min_l by lia.
  rewrite Nat2Z.id.
  replace (Z.to_nat (Z.of_nat (length l1) + 1)) with (length l1 + 1)%nat by lia.
  rewrite take_app_length.
  rewrite <- drop_drop, drop_app_length. done.
Qed.

Lemma register_lookup (m : Modal.t) (w : World) :
  parents (Modal.register m w) !! Modal.parent m =
    Some (Modal.id m :: default [] (parents w !! Modal.parent m)).
Proof.
  unfold Modal.register.
  destruct (parents w !! Modal.parent m); simpl; by rewrite lookup_insert_eq.
Qed.

Lemma register_parents (m : Modal.t) (w : World) :
  parents (Modal.register m w) =
    <[Modal.parent m :=
        Modal.id m :: default [] (parents w !! Modal.parent m)]> (parents w).
Proof. unfold Modal.register. by destruct (parents w !! Modal.parent m). Qed.

(** [unregister] of an id that is in the list takes out its first
    occurrence and keeps the order of the others. *)
Lemma unregister_present (m : Modal.t) (w : World) (l1 l2 : list Id) :
  parents w !! Modal.parent m = Some (l1 ++ Modal.id m :: l2) →
  Modal.id m ∉ l1 →
  parents (Modal.unregister m w) =
    if decide (length (l1 ++ l2) = 0%nat)
    then delete (Modal.parent m) (parents w)
    else <[Modal.parent m := l1 ++ l2]> (parents w).
Proof.
  intros Hids Hid. unfold Modal.unregister.
  rewrite Hids, indexOf_first, splice_one by done. by case_decide.
Qed.

Lemma register_only_parents (m : Modal.t) (w : World) :
  Modal.register m w = set_parents (parents (Modal.register m w)) w.
Proof. unfold Modal.register. by case_match. Qed.

Lemma unregister_only_parents (m : Modal.t) (w : World) :
  Modal.unregister m w = set_parents (parents (Modal.unregister m w)) w.
Proof.
  unfold Modal.unregister. case_match; [case_decide|]; by destruct w.
Qed.

(** The modal registered last is the one on top; the one below it is on top
    again once the upper one is unregistered; and two modals under one
    parent are never both on top unless they carry the same id. *)
Theorem registry_stack_order (a b : Modal.t) (w : World) :
  Modal.parent a = Modal.parent b →
  (Modal.id a ≠ Modal.id b →
     let w2 := Modal.register b (Modal.register a w) in
     Modal.isOnTop b w2 = true
     ∧ Modal.isOnTop a w2 = false
     ∧ Modal.isOnTop a (Modal.unregister b w2) = true)
  ∧ (Modal.isOnTop a w = true → Modal.isOnTop b w = true →
     Modal.id a = Modal.id b).
Proof.
  intros Hpar. split.
  - intros Hne w2.
    pose proof (register_lookup a w) as Ha.
    pose proof (register_lookup b (Modal.register a w)) as Hb.
    rewrite <- Hpar, Ha in Hb. simpl in Hb. fold w2 in Hb.
    split; [|split].
    + apply isOnTop_spec. rewrite <- Hpar. eauto.
    + apply not_true_is_false. intros [rest Hrest]%isOnTop_spec. congruence.
    + apply isOnTop_spec.
      pose proof (unregister_present b w2 []
                    (Modal.id a :: default [] (parents w !! Modal.parent a)))
        as Hun.
      rewrite <- Hpar in Hun. simpl in Hun.
      rewrite (Hun Hb (not_elem_of_nil _)), lookup_insert_eq. eauto.
  - intros [ra Ha]%isOnTop_spec [rb Hb]%isOnTop_spec. congruence.
Qed.

Lemma registry_stack_order_witness :
  Modal.parent Scenario.mountA.1 = Modal.parent Scenario.mountB.1
  ∧ Modal.id Scenario.mountA.1 ≠ Modal.id Scenario.mountB.1
  ∧ Modal.isOnTop Scenario.mountB.1
      (Modal.register Scenario.mountB.1
         (Modal.register Scenario.mountA.1 Scenario.page)) = true
  ∧ Modal.isOnTop Scenario.mountA.1
      (Modal.unregister Scenario.mountB.1
         (Modal.register Scenario.mountB.1
            (Modal.register Scenario.mountA.1 Scenario.page))) = true
  ∧ (Modal.isOnTop Scenario.openB.1 Scenario.openB.2 = true
     ∧ Modal.id Scenario.openB.1 = Modal.id Scenario.openB.1).
Proof.
  assert (Hne : Modal.id Scenario.mountA.1 ≠ Modal.id Scenario.mountB.1)
    by (by vm_compute).
  pose proof (registry_stack_order Scenario.mountA.1 Scenario.mountB.1
                Scenario.page eq_refl) as [Hstack _].
  pose proof (registry_stack_order Scenario.openB.1 Scenario.openB.1
                Scenario.openB.2 eq_refl) as [_ Hsame].
  destruct (Hstack Hne) as (Htop & _ & Hagain).
  split; [reflexivity|]. split; [exact Hne|]. split; [exact Htop|].
  split; [exact Hagain|]. split; [reflexivity|].
  apply Hsame; reflexivity.
Defined.

Lemma unregister_after_register (m : Modal.t) (w : World) :
  parents w !! Modal.parent m ≠ Some [] →
  Modal.unregister m (Modal.register m w) = w.
Proof.
  intros Hwf.
  assert (Hp : parents (Modal.unregister m (Modal.register m w)) = parents w).
  { rewrite (unregister_present m _ []
               (default [] (parents w !! Modal.parent m))
               (register_lookup m w) (not_elem_of_nil _)).
    rewrite register_parents. simpl.
    destruct (parents w !! Modal.parent m) as [ids|] eqn:Hids; simpl.
    - destruct ids as [|x ids]; [by destruct Hwf|]. simpl.
      rewrite insert_insert_eq. by apply insert_id.
    - by apply delete_insert_id. }
  rewrite unregister_only_parents, Hp, register_only_parents.
  by destruct w.
Qed.

(** Registering and at once unregistering an instance gives back the world
    as it was, whatever else is in the list, as long as the registry held
    no empty list for the parent. *)
Theorem register_unregister_roundtrip (m : Modal.t) (w : World) :
  parents w !! Modal.parent m ≠ Some [] →
  Modal.unregister m (Modal.register m w) = w.
Proof. apply unregister_after_register. Qed.

Lemma register_unregister_roundtrip_witness :
  parents Scenario.openA.2 !! Modal.parent Scenario.mountB.1 ≠ Some []
  ∧ Modal.unregister Scenario.mountB.1
      (Modal.register Scenario.mountB.1 Scenario.openA.2) = Scenario.openA.2.
Proof.
  assert (Hwf : parents Scenario.openA.2 !! Modal.parent Scenario.mountB.1
                ≠ Some []) by (by vm_compute).
  split; [exact Hwf|].
  apply (register_unregister_roundtrip Scenario.mountB.1 Scenario.openA.2 Hwf).
Defined.

(** What [unregister] does in each case: with no list for the parent,
    nothing; with the id in the list, its first occurrence goes and the
    rest keeps its order; with the id missing from the list, the last
    element goes.  A list that runs empty is deleted. *)
Theorem unregister_cases (m : Modal.t) (w : World) :
  (parents w !! Modal.parent m = None → Modal.unregister m w = w)
  ∧ (∀ l1 l2,
       parents w !! Modal.parent m = Some (l1 ++ Modal.id m :: l2) →
       Modal.id m ∉ l1 →
       parents (Modal.unregister m w) !! Modal.parent m =
         (if decide (l1 ++ l2 = []) then None else Some (l1 ++ l2)))
  ∧ (∀ ids,
       parents w !! Modal.parent m = Some ids →
       Modal.id m ∉ ids →
       parents (Modal.unregister m w) !! Modal.parent m =
         (if decide (removelast ids = []) then None
          else Some (removelast ids)))
  ∧ (∀ p, p ≠ Modal.parent m →
       parents (Modal.unregister m w) !! p = parents w !! p).
Proof.
  split; [|split; [|split]].
  - intros Hnone. unfold Modal.unregister. by rewrite Hnone.
  - intros l1 l2 Hids Hid. rewrite (unregister_present m w l1 l2) by done.
    destruct (l1 ++ l2) eqn:Hl; simpl.
    + by rewrite lookup_delete_eq.
    + by rewrite lookup_insert_eq.
  - intros ids Hids Hid. rewrite (unregister_absent m w ids) by done.
    destruct (removelast ids) eqn:Hl; simpl.
    + by rewrite lookup_delete_eq.
    + by rewrite lookup_insert_eq.
  - intros p Hp. unfold Modal.unregister.
    destruct (parents w !! Modal.parent m); [|done].
    case_decide; simpl.
    + by rewrite lookup_delete_ne.
    + by rewrite lookup_insert_ne.
Qed.

Lemma unregister_cases_witness :
  (parents Scenario.page !! Modal.parent Scenario.mountA.1 = None
   ∧ Modal.unregister Scenario.mountA.1 Scenario.page = Scenario.page)
  ∧ (parents Scenario.openB.2 !! BODY = Some ([IdNum 2] ++ IdNum 1 :: [])
     ∧ (IdNum 1 ∉ [IdNum 2])
     ∧ parents (Modal.unregister Scenario.openA.1 Scenario.openB.2) !! BODY
       = Some [IdNum 2])
  ∧ (parents Scenario.openB.2 !! BODY = Some [IdNum 2; IdNum 1]
     ∧ (Modal.id Scenario.mountS.1 ∉ [IdNum 2; IdNum 1])
     ∧ parents (Modal.unregister Scenario.mountS.1 Scenario.openB.2) !! BODY
       = Some [IdNum 2]).
Proof.
  pose proof (unregister_cases Scenario.mountA.1 Scenario.page) as [Hnone _].
  pose proof (unregister_cases Scenario.openA.1 Scenario.openB.2)
    as (_ & Hpresent & _).
  pose proof (unregister_cases Scenario.mountS.1 Scenario.openB.2)
    as (_ & _ & Habsent & _).
  assert (Hin : IdNum 1 ∉ [IdNum 2]) by (by intros [=]%list_elem_of_singleton).
  assert (Hout : Modal.id Scenario.mountS.1 ∉ [IdNum 2; IdNum 1]).
  { vm_compute. intros Hel. repeat (apply elem_of_cons in Hel as [Hel|Hel];
      [discriminate|]). by apply elem_of_nil in Hel. }
  split; [split; [reflexivity|apply Hnone; reflexivity]|].
  split.
  - split; [reflexivity|]. split; [exact Hin|].
    apply (Hpresent [IdNum 2] [] eq_refl Hin).
  - split; [reflexivity|]. split; [exact Hout|].
    apply (Habsent [IdNum 2; IdNum 1] eq_refl Hout).
Defined.

(** ** What no lifecycle event changes *)

Section Frames.
Context {util : StyleUtility}.

(** Each step of the open and close sequences writes to one part of the
    world. *)
Lemma addDocEvents_frame (m : Modal.t) (w : World) :
  nextId (Modal.addDocEvents m w) = nextId w
  ∧ parents (Modal.addDocEvents m w) = parents w
  ∧ elements (Modal.addDocEvents m w) = elements w
  ∧ activeElement (Modal.addDocEvents m w) = activeElement w
  ∧ focusable (Modal.addDocEvents m w) = focusable w.
Proof. unfold Modal.addDocEvents. by case_match. Qed.

Lemma removeDocEvents_frame (m : Modal.t) (w : World) :
  nextId (Modal.removeDocEvents m w) = nextId w
  ∧ parents (Modal.removeDocEvents m w) = parents w
  ∧ elements (Modal.removeDocEvents m w) = elements w
  ∧ activeElement (Modal.removeDocEvents m w) = activeElement w
  ∧ focusable (Modal.removeDocEvents m w) = focusable w.
Proof. unfold Modal.removeDocEvents. by case_match. Qed.

Lemma register_frame (m : Modal.t) (w : World) :
  nextId (Modal.register m w) = nextId w
  ∧ elements (Modal.register m w) = elements w
  ∧ listeners (Modal.register m w) = listeners w
  ∧ activeElement (Modal.register m w) = activeElement w
  ∧ focusable (Modal.register m w) = focusable w.
Proof. unfold Modal.register. by case_match. Qed.

Lemma unregister_frame (m : Modal.t) (w : World) :
  nextId (Modal.unregister m w) = nextId w
  ∧ elements (Modal.unregister m w) = elements w
  ∧ listeners (Modal.unregister m w) = listeners w
  ∧ activeElement (Modal.unregister m w) = activeElement w
  ∧ focusable (Modal.unregister m w) = focusable w.
Proof. unfold Modal.unregister. case_match; [case_decide|]; done. Qed.

Lemma disableScroll_frame (m : Modal.t) (w : World) :
  nextId (Modal.disableScroll m w) = nextId w
  ∧ parents (Modal.disableScroll m w) = parents w
  ∧ listeners (Modal.disableScroll m w) = listeners w
  ∧ activeElement (Modal.disableScroll m w) = activeElement w
  ∧ focusable (Modal.disableScroll m w) = focusable w
  ∧ trace (Modal.disableScroll m w) = trace w.
Proof. unfold Modal.disableScroll. repeat case_match; done. Qed.

Lemma restoreScroll_frame (m : Modal.t) (w : World) :
  nextId (Modal.restoreScroll m w) = nextId w
  ∧ parents (Modal.restoreScroll m w) = parents w
  ∧ listeners (Modal.restoreScroll m w) = listeners w
  ∧ activeElement (Modal.restoreScroll m w) = activeElement w
  ∧ focusable (Modal.restoreScroll m w) = focusable w
  ∧ trace (Modal.restoreScroll m w) = trace w.
Proof. unfold Modal.restoreScroll. by case_decide. Qed.

Lemma restoreFocus_frame (m : Modal.t) (w : World) :
  nextId (Modal.restoreFocus m w) = nextId w
  ∧ parents (Modal.restoreFocus m w) = parents w
  ∧ elements (Modal.restoreFocus m w) = elements w
  ∧ listeners (Modal.restoreFocus m w) = listeners w
  ∧ focusable (Modal.restoreFocus m w) = focusable w.
Proof. unfold Modal.restoreFocus. repeat case_match; done. Qed.

Lemma call_opt_frame (m : Modal.t) (b : bool) (cb : Callback) (w : World) :
  nextId (Modal.call_opt m b cb w) = nextId w
  ∧ parents (Modal.call_opt m b cb w) = parents w
  ∧ elements (Modal.call_opt m b cb w) = elements w
  ∧ listeners (Modal.call_opt m b cb w) = listeners w
  ∧ activeElement (Modal.call_opt m b cb w) = activeElement w
  ∧ focusable (Modal.call_opt m b cb w) = focusable w.
Proof. unfold Modal.call_opt. by destruct b. Qed.

(** The close sequence, field by field. *)
Lemma onClose_world (m : Modal.t) (w : World) :
  nextId (Modal.onClose m w) = nextId w
  ∧ parents (Modal.onClose m w) = parents (Modal.unregister m w)
  ∧ focusable (Modal.onClose m w) = focusable w
  ∧ elements (Modal.onClose m w) =
      elements (Modal.restoreScroll m
                  (Modal.restoreFocus m
                     (Modal.removeDocEvents m (Modal.unregister m w)))).
Proof.
  unfold Modal.onClose.
  set (w1 := Modal.unregister m w).
  set (w2 := Modal.removeDocEvents m w1).
  set (w3 := Modal.restoreFocus m w2).
  set (w4 := Modal.restoreScroll m w3).
  destruct (call_opt_frame m (IProps.onClose (Modal.props m)) CbOnClose w4)
    as (-> & -> & -> & _ & _ & ->).
  destruct (restoreScroll_frame m w3) as (Hn4 & Hp4 & _ & _ & Hf4 & _).
  destruct (restoreFocus_frame m w2) as (Hn3 & Hp3 & _ & _ & Hf3).
  destruct (removeDocEvents_frame m w1) as (Hn2 & Hp2 & _ & _ & Hf2).
  destruct (unregister_frame m w) as (Hn1 & _ & _ & _ & Hf1).
  fold w1 in Hn1, Hf1. fold w2 in Hn2, Hp2, Hf2. fold w3 in Hn3, Hp3, Hf3.
  fold w4 in Hn4, Hp4, Hf4.
  split; [by rewrite Hn4, Hn3, Hn2, Hn1|].
  split; [by rewrite Hp4, Hp3, Hp2|].
  split; [by rewrite Hf4, Hf3, Hf2, Hf1|done].
Qed.

Lemma onClose_parents (m : Modal.t) (w : World) :
  parents (Modal.onClose m w) = parents (Modal.unregister m w).
Proof. apply onClose_world. Qed.

Lemma onClose_nextId (m : Modal.t) (w : World) :
  nextId (Modal.onClose m w) = nextId w.
Proof. apply onClose_world. Qed.

Lemma onOpen_nextId (m : Modal.t) (w : World) :
  nextId (Modal.onOpen m w).2 = nextId w.
Proof.
  unfold Modal.onOpen, Modal.storeFocus.
  set (w1 := Modal.register m w). set (w2 := Modal.addDocEvents m w1).
  destruct (register_frame m w) as (Hn1 & _).
  destruct (addDocEvents_frame m w1) as (Hn2 & _).
  fold w1 in Hn1. fold w2 in Hn2.
  destruct (IProps.noFocus (Modal.props m));
    cbn [fst snd Modal.props Modal.set_prevFocused Modal.portal];
    match goal with
    | |- nextId (Modal.call_opt ?a ?b ?c ?d) = _ =>
        destruct (call_opt_frame a b c d) as (-> & _)
    end; [|destruct (Modal.portal m)];
    cbn [nextId focus emit set_activeElement]; by rewrite Hn2, Hn1.
Qed.

Lemma beforeOpen_frame (m : Modal.t) (w : World) :
  nextId (Modal.beforeOpen m w) = nextId w
  ∧ parents (Modal.beforeOpen m w) = parents w
  ∧ listeners (Modal.beforeOpen m w) = listeners w
  ∧ activeElement (Modal.beforeOpen m w) = activeElement w
  ∧ focusable (Modal.beforeOpen m w) = focusable w.
Proof.
  unfold Modal.beforeOpen.
  set (w1 := Modal.call_opt m (IProps.beforeOpen (Modal.props m)) CbBeforeOpen w).
  destruct (disableScroll_frame m w1) as (-> & -> & -> & -> & -> & _).
  subst w1.
  destruct (call_opt_frame m (IProps.beforeOpen (Modal.props m)) CbBeforeOpen w)
    as (-> & -> & _ & -> & -> & ->). done.
Qed.

Lemma componentDidUpdate_world (m : Modal.t) (w : World) :
  nextId (Modal.componentDidUpdate m w).2 = nextId w
  ∧ parents (Modal.componentDidUpdate m w).2 = parents w
  ∧ listeners (Modal.componentDidUpdate m w).2 = listeners w
  ∧ activeElement (Modal.componentDidUpdate m w).2 = activeElement w
  ∧ focusable (Modal.componentDidUpdate m w).2 = focusable w.
Proof.
  unfold Modal.componentDidUpdate, Modal.setState, Modal.beforeClose.
  case_match; [|done]. destruct (IProps.show (Modal.props m)); simpl.
  - apply (beforeOpen_frame _ (emit _ w)).
  - destruct (call_opt_frame (Modal.set_stage CLOSING m)
                (IProps.beforeClose (Modal.props m)) CbBeforeClose
                (emit (SetState (Modal.self m) CLOSING) w))
      as (-> & -> & _ & -> & -> & ->). done.
Qed.

Lemma registry_wf_ext (w w' : World) :
  parents w' = parents w → registry_wf w → registry_wf w'.
Proof. unfold registry_wf. by intros ->. Qed.

Lemma registry_wf_unregister (m : Modal.t) (w : World) :
  registry_wf w → registry_wf (Modal.unregister m w).
Proof.
  intros Hwf p ids. unfold Modal.unregister.
  destruct (parents w !! Modal.parent m) as [l|]; [|apply Hwf].
  case_decide as Hlen; simpl.
  - rewrite lookup_delete. case_decide; [done|apply Hwf].
  - rewrite lookup_insert. case_decide; [|apply Hwf].
    intros [= <-] Hnil. apply Hlen. by rewrite Hnil.
Qed.

Lemma registry_wf_onClose (m : Modal.t) (w : World) :
  registry_wf w → registry_wf (Modal.onClose m w).
Proof.
  intros Hwf. eapply registry_wf_ext; [apply onClose_parents|].
  by apply registry_wf_unregister.
Qed.

Lemma registry_wf_step (s : Modal.t * World) (ev : Event) :
  registry_wf s.2 → registry_wf (step s ev).2.
Proof.
  destruct s as [m w]. simpl. intros Hwf. destruct ev as [b| |]; simpl.
  - eapply registry_wf_ext; [apply componentDidUpdate_world|done].
  - destruct (decide (Modal.animated m + 1 = Modal.expectedCount m)).
    + rewrite onOpening_complete by done.
      intros p ids. rewrite parents_onOpen. simpl. rewrite lookup_insert.
      case_decide; [by intros [= <-]|apply Hwf].
    + by rewrite onOpening_pending.
  - destruct (decide (Modal.animated m - 1 = 0)).
    + rewrite onClosing_complete by done. simpl.
      apply registry_wf_onClose. eapply registry_wf_ext; [|exact Hwf]. done.
    + by rewrite onClosing_pending.
Qed.

Lemma run_registry_wf (evs : list Event) (s : Modal.t * World) :
  registry_wf s.2 → registry_wf (run evs s).2.
Proof.
  revert s. induction evs as [|ev evs IH]; intros s Hs; [done|].
  rewrite run_cons. by apply IH, registry_wf_step.
Qed.

(** The instance's identity and the fields of its props other than [show]
    are what they were after any event. *)
Lemma step_instance (s : Modal.t * World) (ev : Event) :
  Modal.self (step s ev).1 = Modal.self s.1
  ∧ Modal.id (step s ev).1 = Modal.id s.1
  ∧ Modal.parent (step s ev).1 = Modal.parent s.1
  ∧ Modal.portal (step s ev).1 = Modal.portal s.1
  ∧ IProps.with_show true (Modal.props (step s ev).1)
    = IProps.with_show true (Modal.props s.1).
Proof.
  destruct s as [m w]. destruct ev as [b| |]; simpl.
  - rewrite componentDidUpdate_instance. simpl. by destruct (Modal.props m).
  - destruct (decide (Modal.animated m + 1 = Modal.expectedCount m)).
    + rewrite onOpening_complete, onOpen_instance by done. simpl.
      by case_match.
    + by rewrite onOpening_pending.
  - rewrite onClosing_instance. simpl. by case_decide.
Qed.

Lemma nextId_step (s : Modal.t * World) (ev : Event) :
  nextId (step s ev).2 = nextId s.2.
Proof.
  destruct s as [m w]. destruct ev as [b| |]; simpl.
  - apply componentDidUpdate_world.
  - destruct (decide (Modal.animated m + 1 = Modal.expectedCount m)).
    + by rewrite onOpening_complete, onOpen_nextId.
    + by rewrite onOpening_pending.
  - destruct (decide (Modal.animated m - 1 = 0)).
    + rewrite onClosing_complete by done. simpl. by rewrite onClose_nextId.
    + by rewrite onClosing_pending.
Qed.

Lemma count_event_cons (ev x : Event) (evs : list Event) :
  count_event ev (x :: evs) =
    (if decide (x = ev) then 1 else 0) + count_event ev evs.
Proof.
  unfold count_event. rewrite filter_cons. case_decide; simpl; lia.
Qed.

Lemma step_animated (s : Modal.t * World) (ev : Event) :
  Modal.animated (step s ev).1 =
    Modal.animated s.1
    + match ev with Entered => 1 | Completed => -1 | DidUpdate _ => 0 end.
Proof.
  destruct s as [m w]. destruct ev as [b| |]; simpl.
  - rewrite componentDidUpdate_instance. simpl. lia.
  - rewrite onOpening_animated. lia.
  - rewrite onClosing_animated. lia.
Qed.

Lemma run_counter (evs : list Event) (s : Modal.t * World) :
  Modal.animated (run evs s).1 =
    Modal.animated s.1 + count_event Entered evs - count_event Completed evs
  ∧ Modal.id (run evs s).1 = Modal.id s.1
  ∧ Modal.parent (run evs s).1 = Modal.parent s.1
  ∧ Modal.self (run evs s).1 = Modal.self s.1
  ∧ Modal.portal (run evs s).1 = Modal.portal s.1
  ∧ IProps.with_show true (Modal.props (run evs s).1)
    = IProps.with_show true (Modal.props s.1)
  ∧ nextId (run evs s).2 = nextId s.2.
Proof.
  revert s. induction evs as [|ev evs IH]; intros s.
  - unfold count_event. simpl. repeat split; lia.
  - rewrite run_cons.
    destruct (IH (step s ev)) as (-> & -> & -> & -> & -> & -> & ->).
    destruct (step_instance s ev) as (-> & -> & -> & -> & ->).
    rewrite step_animated, nextId_step, !count_event_cons.
    repeat split; try done.
    destruct ev; repeat case_decide; simplify_eq; lia.
Qed.

End Frames.

(** The registry never comes to hold an empty list: if it holds none, it
    holds none after any events of any instance and after its unmount. *)
Theorem registry_never_holds_empty_list {util : StyleUtility}
    (m : Modal.t) (w : World) (evs : list Event) :
  registry_wf w →
  registry_wf (run evs (m, w)).2
  ∧ registry_wf
      (Modal.componentWillUnmount (run evs (m, w)).1 (run evs (m, w)).2).
Proof.
  intros Hwf.
  assert (Hrun : registry_wf (run evs (m, w)).2)
    by (by apply run_registry_wf).
  split; [done|]. by apply registry_wf_onClose.
Qed.

Lemma registry_never_holds_empty_list_witness :
  registry_wf Scenario.openA.2
  ∧ registry_wf (run (util := hide_overflow) Scenario.open
                   (Scenario.mountB.1, Scenario.openA.2)).2
  ∧ registry_wf
      (Modal.componentWillUnmount
         (run (util := hide_overflow) (Scenario.open ++ Scenario.close)
            (Scenario.mountB.1, Scenario.openA.2)).1
         (run (util := hide_overflow) (Scenario.open ++ Scenario.close)
            (Scenario.mountB.1, Scenario.openA.2)).2).
Proof.
  assert (Hwf : registry_wf Scenario.openA.2).
  { assert (Hp : parents Scenario.openA.2 = {[ BODY := [IdNum 1] ]})
      by (by vm_compute).
    intros p ids. rewrite Hp. by intros [_ <-]%lookup_singleton_Some. }
  pose proof (registry_never_holds_empty_list (util := hide_overflow)
                Scenario.mountB.1 Scenario.openA.2 Scenario.open Hwf)
    as [Hopen _].
  pose proof (registry_never_holds_empty_list (util := hide_overflow)
                Scenario.mountB.1 Scenario.openA.2
                (Scenario.open ++ Scenario.close) Hwf) as [_ Hunmount].
  split; [exact Hwf|]. split; [exact Hopen|]. exact Hunmount.
Defined.

Section ActFrames.
Context {util : StyleUtility}.

Lemma act_instance (s : Modal.t * World) (a : Action) :
  Modal.self (act s a).1 = Modal.self s.1
  ∧ Modal.id (act s a).1 = Modal.id s.1
  ∧ Modal.parent (act s a).1 = Modal.parent s.1.
Proof.
  destruct s as [m w]. destruct a as [p| |]; cbn [act].
  - rewrite componentDidUpdate_instance. done.
  - destruct (decide (Modal.animated m + 1 = Modal.expectedCount m)).
    + rewrite onOpening_complete, onOpen_instance by done. simpl.
      by case_match.
    + by rewrite onOpening_pending.
  - rewrite onClosing_instance. simpl. by case_decide.
Qed.

Lemma act_nextId (s : Modal.t * World) (a : Action) :
  nextId (act s a).2 = nextId s.2.
Proof.
  destruct s as [m w]. destruct a as [p| |]; cbn [act].
  - apply componentDidUpdate_world.
  - destruct (decide (Modal.animated m + 1 = Modal.expectedCount m)).
    + by rewrite onOpening_complete, onOpen_nextId.
    + by rewrite onOpening_pending.
  - destruct (decide (Modal.animated m - 1 = 0)).
    + rewrite onClosing_complete by done. simpl. by rewrite onClose_nextId.
    + by rewrite onClosing_pending.
Qed.

Lemma act_animated (s : Modal.t * World) (a : Action) :
  Modal.animated (act s a).1 =
    Modal.animated s.1
    + match a with OnEntered => 1 | OnCompleted => -1 | Render _ => 0 end.
Proof.
  destruct s as [m w]. destruct a as [p| |]; cbn [act].
  - rewrite componentDidUpdate_instance. simpl. lia.
  - rewrite onOpening_animated. simpl. lia.
  - rewrite onClosing_animated. simpl. lia.
Qed.

Lemma count_signals_cons (f : Action → bool) (a : Action) (acts : list Action) :
  count_signals f (a :: acts) =
    (if f a then 1 else 0) + count_signals f acts.
Proof.
  unfold count_signals. rewrite filter_cons.
  destruct (f a); case_decide; try done; simpl length; lia.
Qed.

Lemma perform_counter (acts : list Action) (s : Modal.t * World) :
  Modal.animated (perform acts s).1 =
    Modal.animated s.1 + count_signals is_entered acts
    - count_signals is_completed acts
  ∧ Modal.id (perform acts s).1 = Modal.id s.1
  ∧ Modal.parent (perform acts s).1 = Modal.parent s.1
  ∧ Modal.self (perform acts s).1 = Modal.self s.1
  ∧ nextId (perform acts s).2 = nextId s.2.
Proof.
  revert s. induction acts as [|a acts IH]; intros s.
  - unfold count_signals. simpl. repeat split; lia.
  - rewrite perform_cons.
    destruct (IH (act s a)) as (-> & -> & -> & -> & ->).
    destruct (act_instance s a) as (-> & -> & ->).
    rewrite act_animated, act_nextId, !count_signals_cons.
    repeat split; try done. destruct a; simpl; lia.
Qed.

End ActFrames.

(** The counter only counts signals: after any re-renders, with any props,
    and any signals it is what it was plus the opening signals less the
    closing signals; [componentDidUpdate] never resets it.  The instance's
    id and parent are those of its construction, whatever [id] and
    [appendTo] later props carry, and no event changes the module's id
    counter. *)
Theorem counter_counts_signals {util : StyleUtility}
    (m : Modal.t) (w : World) (acts : list Action) :
  Modal.animated (perform acts (m, w)).1 =
    Modal.animated m + count_signals is_entered acts
    - count_signals is_completed acts
  ∧ Modal.id (perform acts (m, w)).1 = Modal.id m
  ∧ Modal.parent (perform acts (m, w)).1 = Modal.parent m
  ∧ Modal.self (perform acts (m, w)).1 = Modal.self m
  ∧ nextId (perform acts (m, w)).2 = nextId w.
Proof. apply (perform_counter acts (m, w)). Qed.

(** ** Generated ids *)

(** Two instances constructed without an [id] prop, one after the other
    with any events of the first in between, get the next two numbers of
    the module counter: their ids differ, and so do the texts under which
    they would own a scroll lock.  (The counter is a JavaScript number,
    exact up to 2^53.) *)
Theorem generated_ids_distinct {util : StyleUtility}
    (r1 r2 : Ref) (el1 el2 : option Elem) (p1 p2 : IProps.t)
    (w : World) (evs : list Event) :
  (IProps.id p1 = None ∨ IProps.id p1 = Some ""%string) →
  (IProps.id p2 = None ∨ IProps.id p2 = Some ""%string) →
  (nextId w + 2 ≤ 2 ^ 53)%N →
  let s := run evs (Modal.constructor r1 el1 p1 w) in
  let s2 := Modal.constructor r2 el2 p2 s.2 in
  Modal.id s.1 = IdNum (nextId w + 1)
  ∧ Modal.id s2.1 = IdNum (nextId w + 2)
  ∧ Modal.id s.1 ≠ Modal.id s2.1
  ∧ toString (Modal.id s.1) ≠ toString (Modal.id s2.1).
Proof.
  intros Hp1 Hp2 _ s s2.
  assert (H1 : Modal.id (Modal.constructor r1 el1 p1 w).1 = IdNum (nextId w + 1)
               ∧ nextId (Modal.constructor r1 el1 p1 w).2 = (nextId w + 1)%N).
  { unfold Modal.constructor. destruct Hp1 as [-> | ->]; done. }
  destruct (run_counter evs (Modal.constructor r1 el1 p1 w))
    as (_ & Hid & _ & _ & _ & _ & Hnext).
  fold s in Hid, Hnext. destruct H1 as [H1 Hn1]. rewrite H1 in Hid.
  rewrite Hn1 in Hnext.
  assert (H2 : Modal.id s2.1 = IdNum (nextId w + 2)).
  { unfold s2, Modal.constructor. rewrite Hnext.
    replace (nextId w + 1 + 1)%N with (nextId w + 2)%N by lia.
    destruct Hp2 as [-> | ->]; done. }
  split; [done|]. split; [done|]. rewrite Hid, H2. split.
  - intros [= Heq]. lia.
  - intros Heq%toString_num_inj. lia.
Qed.

Lemma generated_ids_distinct_witness :
  (IProps.id IProps.defaults = None ∨ IProps.id IProps.defaults = Some ""%string)
  ∧ (nextId Scenario.page + 2 ≤ 2 ^ 53)%N
  ∧ Modal.id (run (util := hide_overflow) Scenario.open
                (Modal.constructor 0%nat (Some (Node 0)) IProps.defaults
                   Scenario.page)).1
    ≠ Modal.id
        (Modal.constructor 1%nat (Some (Node 1)) IProps.defaults
           (run (util := hide_overflow) Scenario.open
              (Modal.constructor 0%nat (Some (Node 0)) IProps.defaults
                 Scenario.page)).2).1.
Proof.
  assert (Hnone : IProps.id IProps.defaults = None
                  ∨ IProps.id IProps.defaults = Some ""%string)
    by (left; reflexivity).
  assert (Hsmall : (nextId Scenario.page + 2 ≤ 2 ^ 53)%N) by (by vm_compute).
  split; [exact Hnone|]. split; [exact Hsmall|].
  apply (generated_ids_distinct (util := hide_overflow) 0%nat 1%nat
           (Some (Node 0)) (Some (Node 1)) IProps.defaults IProps.defaults
           Scenario.page Scenario.open Hnone Hnone Hsmall).
Defined.

(** ** More on the scroll lock *)

Section MoreScrollLock.
Context {util : StyleUtility}.

Lemma element_of_ext (w w' : World) (e : Elem) :
  elements w' = elements w → element_of w' e = element_of w e.
Proof. unfold element_of. by intros ->. Qed.

Lemma disableScroll_noop (m : Modal.t) (w : World) :
  IProps.allowScroll (Modal.props m) = true
  ∨ is_Some (dataset (element_of w (Modal.target m)) !! STYLE_CACHE_KEY) →
  Modal.disableScroll m w = w.
Proof.
  unfold Modal.disableScroll. intros [-> | [c ->]]; [done|]. by case_match.
Qed.

Lemma restoreScroll_noop (m : Modal.t) (w : World) :
  dataset (element_of w (Modal.target m)) !! SCROLL_DISABLER_KEY
    ≠ Some (toString (Modal.id m)) →
  Modal.restoreScroll m w = w.
Proof. intros Hne. unfold Modal.restoreScroll. by rewrite decide_False. Qed.

Lemma disableScroll_other (m : Modal.t) (w : World) (e : Elem) :
  e ≠ Modal.target m → element_of (Modal.disableScroll m w) e = element_of w e.
Proof.
  intros He. unfold Modal.disableScroll. repeat case_match; try done.
  rewrite element_of_set_element, decide_False; done.
Qed.

Lemma restoreScroll_other_element (m : Modal.t) (w : World) (e : Elem) :
  e ≠ Modal.target m → element_of (Modal.restoreScroll m w) e = element_of w e.
Proof.
  intros He. unfold Modal.restoreScroll. case_decide; [|done].
  rewrite element_of_set_element, decide_False; done.
Qed.

Lemma target_not_body (m : Modal.t) : Modal.target m ≠ BODY.
Proof. unfold Modal.target. case_decide; [done|]. done. Qed.

End MoreScrollLock.

(** Taking and releasing the scroll lock change the dataset and the style
    of one element only: the parent, or [document.documentElement] when
    the parent is [document.body], whose own dataset and style no modal
    ever writes.  Nothing else in the world changes. *)
Theorem scroll_lock_touches_one_element {util : StyleUtility}
    (m : Modal.t) (w : World) :
  (∀ e, e ≠ Modal.target m →
     element_of (Modal.disableScroll m w) e = element_of w e
     ∧ element_of (Modal.restoreScroll m w) e = element_of w e)
  ∧ element_of (Modal.disableScroll m w) BODY = element_of w BODY
  ∧ element_of (Modal.restoreScroll m w) BODY = element_of w BODY
  ∧ (Modal.parent m = BODY → Modal.target m = ROOT)
  ∧ (Modal.parent m ≠ BODY → Modal.target m = Modal.parent m)
  ∧ (∀ w', w' = Modal.disableScroll m w ∨ w' = Modal.restoreScroll m w →
       nextId w' = nextId w ∧ parents w' = parents w
       ∧ listeners w' = listeners w ∧ activeElement w' = activeElement w
       ∧ focusable w' = focusable w ∧ trace w' = trace w).
Proof.
  pose proof (target_not_body m) as Hbody.
  split; [|split; [|split; [|split; [|split]]]].
  - intros e He.
    split; [by apply disableScroll_other|by apply restoreScroll_other_element].
  - by apply disableScroll_other.
  - by apply restoreScroll_other_element.
  - intros Hp. unfold Modal.target. by rewrite decide_True.
  - intros Hp. unfold Modal.target. by rewrite decide_False.
  - intros w' [-> | ->]; [apply disableScroll_frame|apply restoreScroll_frame].
Qed.

Lemma scroll_lock_touches_one_element_witness :
  (BODY ≠ Modal.target Scenario.mountA.1
   ∧ element_of (Modal.disableScroll (util := hide_overflow)
                   Scenario.mountA.1 Scenario.page) BODY
     = element_of Scenario.page BODY)
  ∧ (Modal.parent Scenario.mountA.1 = BODY
     ∧ Modal.target Scenario.mountA.1 = ROOT)
  ∧ parents (Modal.disableScroll (util := hide_overflow)
               Scenario.mountA.1 Scenario.page) = parents Scenario.page.
Proof.
  pose proof (scroll_lock_touches_one_element (util := hide_overflow)
                Scenario.mountA.1 Scenario.page)
    as (Hother & _ & _ & Hbody & _ & Hframe).
  assert (Hne : BODY ≠ Modal.target Scenario.mountA.1) by (by vm_compute).
  split; [split; [exact Hne|apply (Hother BODY Hne)]|].
  split; [split; [reflexivity|apply Hbody; reflexivity]|].
  apply (Hframe _ (or_introl eq_refl)).
Defined.

(** Locks are not stacked.  Once an instance holds the lock of a
    container, taking it again, by anyone, changes nothing, and a release
    in a name that prints differently changes nothing: a second modal that
    opens and closes in between is invisible to the lock. *)
Theorem nested_lock_is_invisible {util : StyleUtility}
    (a b : Modal.t) (w : World) :
  IProps.allowScroll (Modal.props a) = false →
  dataset (element_of w (Modal.target a)) !! STYLE_CACHE_KEY = None →
  Modal.target b = Modal.target a →
  Modal.disableScroll b (Modal.disableScroll a w) = Modal.disableScroll a w
  ∧ (toString (Modal.id b) ≠ toString (Modal.id a) →
     Modal.restoreScroll a
       (Modal.restoreScroll b
          (Modal.disableScroll b (Modal.disableScroll a w)))
     = Modal.restoreScroll a (Modal.disableScroll a w)).
Proof.
  intros Hallow Hnone Htgt.
  pose proof (disableScroll_acquires a w Hallow Hnone) as Hheld.
  assert (Hagain : Modal.disableScroll b (Modal.disableScroll a w)
                   = Modal.disableScroll a w).
  { apply disableScroll_noop. right. rewrite Htgt.
    destruct Hheld as [_ ->]. by eexists. }
  split; [done|]. intros Hne. rewrite Hagain.
  by rewrite (restoreScroll_other a b _ _ Hheld Htgt Hne).
Qed.

Lemma nested_lock_is_invisible_witness :
  IProps.allowScroll (Modal.props Scenario.mountA.1) = false
  ∧ dataset (element_of Scenario.page (Modal.target Scenario.mountA.1))
      !! STYLE_CACHE_KEY = None
  ∧ Modal.target Scenario.mountB.1 = Modal.target Scenario.mountA.1
  ∧ toString (Modal.id Scenario.mountB.1) ≠ toString (Modal.id Scenario.mountA.1)
  ∧ Modal.restoreScroll Scenario.mountA.1
      (Modal.restoreScroll Scenario.mountB.1
         (Modal.disableScroll (util := hide_overflow) Scenario.mountB.1
            (Modal.disableScroll (util := hide_overflow) Scenario.mountA.1
               Scenario.page)))
    = Modal.restoreScroll Scenario.mountA.1
        (Modal.disableScroll (util := hide_overflow) Scenario.mountA.1
           Scenario.page).
Proof.
  assert (Hne : toString (Modal.id Scenario.mountB.1)
                ≠ toString (Modal.id Scenario.mountA.1)) by (by vm_compute).
  pose proof (nested_lock_is_invisible (util := hide_overflow)
                Scenario.mountA.1 Scenario.mountB.1 Scenario.page
                eq_refl eq_refl eq_refl) as [_ Hnested].
  split; [reflexivity|]. split; [reflexivity|]. split; [reflexivity|].
  split; [exact Hne|]. exact (Hnested Hne).
Defined.

(** With a style utility that returns the style text it found, taking the
    lock of a free container and releasing it gives the element back its
    dataset and its style text; only an empty style attribute does not
    survive, it is removed. *)
Theorem scroll_lock_roundtrip {util : StyleUtility} (a : Modal.t) (w : World) :
  IProps.allowScroll (Modal.props a) = false →
  dataset (element_of w (Modal.target a)) !! STYLE_CACHE_KEY = None →
  dataset (element_of w (Modal.target a)) !! SCROLL_DISABLER_KEY = None →
  (lib_disableScroll (Modal.target a)
     (style (element_of w (Modal.target a)))).1
    = cssText (element_of w (Modal.target a)) →
  let el := element_of w (Modal.target a) in
  let el' := element_of (Modal.restoreScroll a (Modal.disableScroll a w))
               (Modal.target a) in
  dataset el' = dataset el
  ∧ cssText el' = cssText el
  ∧ (style el' = None ↔ cssText el = ""%string).
Proof.
  intros Hallow Hcache Howner Hutil. cbv zeta.
  pose proof (disableScroll_acquires a w Hallow Hcache) as Hheld.
  rewrite Hutil in Hheld.
  assert (Hds : dataset (element_of (Modal.disableScroll a w) (Modal.target a))
                = <[SCROLL_DISABLER_KEY := toString (Modal.id a)]>
                    (<[STYLE_CACHE_KEY :=
                         cssText (element_of w (Modal.target a))]>
                       (dataset (element_of w (Modal.target a))))).
  { unfold Modal.disableScroll. rewrite Hallow, Hcache, <- Hutil.
    destruct (lib_disableScroll _ _) as [prev st].
    simpl. by rewrite element_of_set_element, decide_True. }
  rewrite (restoreScroll_owner a _ _ Hheld).
  rewrite element_of_set_element, decide_True by done.
  rewrite Hds. simpl. split; [|split].
  - rewrite delete_insert_ne by done.
    rewrite (delete_insert_id _ STYLE_CACHE_KEY _ Hcache).
    by rewrite (delete_insert_id _ SCROLL_DISABLER_KEY _ Howner).
  - unfold cssText at 1. simpl. by case_decide.
  - case_decide; [done|]. split; [done|]. by intros ?.
Qed.

Lemma scroll_lock_roundtrip_witness :
  IProps.allowScroll (Modal.props Scenario.mountA.1) = false
  ∧ cssText (element_of
               (Modal.restoreScroll Scenario.mountA.1
                  (Modal.disableScroll (util := hide_overflow)
                     Scenario.mountA.1 Scenario.page))
               (Modal.target Scenario.mountA.1))
    = cssText (element_of Scenario.page (Modal.target Scenario.mountA.1)).
Proof.
  split; [reflexivity|].
  pose proof (scroll_lock_roundtrip (util := hide_overflow)
                Scenario.mountA.1 Scenario.page eq_refl eq_refl eq_refl eq_refl)
    as (_ & Htext & _).
  exact Htext.
Defined.

(** ** A lifecycle that never holds the lock *)

Section Quiet.
Context {util : StyleUtility}.

Lemma onClose_elements_quiet (m : Modal.t) (w : World) :
  dataset (element_of w (Modal.target m)) !! SCROLL_DISABLER_KEY
    ≠ Some (toString (Modal.id m)) →
  elements (Modal.onClose m w) = elements w.
Proof.
  intros Hne. destruct (onClose_world m w) as (_ & _ & _ & ->).
  set (w1 := Modal.unregister m w).
  set (w2 := Modal.removeDocEvents m w1).
  set (w3 := Modal.restoreFocus m w2).
  assert (Hel : elements w3 = elements w).
  { destruct (restoreFocus_frame m w2) as (_ & _ & H3 & _).
    destruct (removeDocEvents_frame m w1) as (_ & _ & H2 & _).
    destruct (unregister_frame m w) as (_ & H1 & _).
    fold w1 in H1. fold w2 in H2. fold w3 in H3. by rewrite H3, H2, H1. }
  rewrite restoreScroll_noop; [done|].
  by rewrite (element_of_ext w w3 _ Hel).
Qed.

Lemma componentDidUpdate_elements_quiet (m : Modal.t) (w : World) :
  IProps.allowScroll (Modal.props m) = true
  ∨ is_Some (dataset (element_of w (Modal.target m)) !! STYLE_CACHE_KEY) →
  elements (Modal.componentDidUpdate m w).2 = elements w.
Proof.
  intros Hq. unfold Modal.componentDidUpdate, Modal.setState.
  case_match; [|done]. destruct (IProps.show (Modal.props m)); simpl.
  - unfold Modal.beforeOpen.
    set (m1 := Modal.set_stage OPENING m).
    set (w1 := Modal.call_opt m1 _ _ _).
    assert (Hel : elements w1 = elements w).
    { unfold w1.
      match goal with
      | |- elements (Modal.call_opt ?a ?b ?c ?d) = _ =>
          by destruct (call_opt_frame a b c d) as (_ & _ & -> & _)
      end. }
    rewrite disableScroll_noop; [done|].
    change (Modal.target m1) with (Modal.target m).
    by rewrite (element_of_ext w w1 _ Hel).
  - unfold Modal.beforeClose.
    match goal with
    | |- elements (Modal.call_opt ?a ?b ?c ?d) = _ =>
        by destruct (call_opt_frame a b c d) as (_ & _ & -> & _)
    end.
Qed.

Lemma step_elements_quiet (m : Modal.t) (w : World) (ev : Event) :
  dataset (element_of w (Modal.target m)) !! SCROLL_DISABLER_KEY
    ≠ Some (toString (Modal.id m)) →
  IProps.allowScroll (Modal.props m) = true
  ∨ is_Some (dataset (element_of w (Modal.target m)) !! STYLE_CACHE_KEY) →
  elements (step (m, w) ev).2 = elements w.
Proof.
  intros Hown Hq. destruct ev as [b| |]; simpl.
  - apply componentDidUpdate_elements_quiet. by destruct (Modal.props m).
  - apply elements_onOpening.
  - destruct (decide (Modal.animated m - 1 = 0)).
    + rewrite onClosing_complete by done. simpl.
      by apply (onClose_elements_quiet _ (emit _ w)).
    + by rewrite onClosing_pending.
Qed.

Lemma target_ext (m m' : Modal.t) :
  Modal.parent m' = Modal.parent m → Modal.target m' = Modal.target m.
Proof. unfold Modal.target. by intros ->. Qed.

Lemma run_elements_quiet (evs : list Event) (m : Modal.t) (w : World) :
  dataset (element_of w (Modal.target m)) !! SCROLL_DISABLER_KEY
    ≠ Some (toString (Modal.id m)) →
  IProps.allowScroll (Modal.props m) = true
  ∨ is_Some (dataset (element_of w (Modal.target m)) !! STYLE_CACHE_KEY) →
  elements (run evs (m, w)).2 = elements w.
Proof.
  revert m w. induction evs as [|ev evs IH]; intros m w Hown Hq; [done|].
  rewrite run_cons.
  pose proof (step_elements_quiet m w ev Hown Hq) as Hel.
  destruct (step_instance (m, w) ev) as (_ & Hid & Hpar & _ & Hprops).
  destruct (step (m, w) ev) as [m1 w1]. simpl in *.
  rewrite IH, Hel; [done| |].
  - by rewrite (target_ext _ _ Hpar), Hid, (element_of_ext w w1 _ Hel).
  - rewrite (target_ext _ _ Hpar), (element_of_ext w w1 _ Hel).
    apply (f_equal IProps.allowScroll) in Hprops. simpl in Hprops.
    by rewrite Hprops.
Qed.

End Quiet.

(** An instance that allows scrolling, or that finds the lock of its
    container taken in another name, never changes the dataset or the
    style of any element: not through any updates and signals, and not
    when it is unmounted. *)
Theorem lifecycle_without_lock_leaves_elements {util : StyleUtility}
    (m : Modal.t) (w : World) (evs : list Event) :
  dataset (element_of w (Modal.target m)) !! SCROLL_DISABLER_KEY
    ≠ Some (toString (Modal.id m)) →
  IProps.allowScroll (Modal.props m) = true
  ∨ is_Some (dataset (element_of w (Modal.target m)) !! STYLE_CACHE_KEY) →
  elements (run evs (m, w)).2 = elements w
  ∧ elements
      (Modal.componentWillUnmount (run evs (m, w)).1 (run evs (m, w)).2)
    = elements w.
Proof.
  intros Hown Hq.
  pose proof (run_elements_quiet evs m w Hown Hq) as Hel.
  split; [done|]. unfold Modal.componentWillUnmount.
  destruct (run_counter evs (m, w)) as (_ & Hid & Hpar & _).
  rewrite onClose_elements_quiet; [done|].
  by rewrite (target_ext _ _ Hpar), Hid, (element_of_ext w _ _ Hel).
Qed.

Lemma lifecycle_without_lock_leaves_elements_witness :
  dataset (element_of Scenario.openA.2 (Modal.target Scenario.mountB.1))
    !! SCROLL_DISABLER_KEY ≠ Some (toString (Modal.id Scenario.mountB.1))
  ∧ is_Some (dataset (element_of Scenario.openA.2
                        (Modal.target Scenario.mountB.1)) !! STYLE_CACHE_KEY)
  ∧ elements (run (util := hide_overflow) (Scenario.open ++ Scenario.close)
                (Scenario.mountB.1, Scenario.openA.2)).2
    = elements Scenario.openA.2.
Proof.
  assert (Hown : dataset (element_of Scenario.openA.2
                            (Modal.target Scenario.mountB.1))
                   !! SCROLL_DISABLER_KEY
                 ≠ Some (toString (Modal.id Scenario.mountB.1)))
    by (by vm_compute).
  assert (Hcached : is_Some (dataset (element_of Scenario.openA.2
                                        (Modal.target Scenario.mountB.1))
                               !! STYLE_CACHE_KEY))
    by (exists ""%string; by vm_compute).
  split; [exact Hown|]. split; [exact Hcached|].
  pose proof (lifecycle_without_lock_leaves_elements (util := hide_overflow)
                Scenario.mountB.1 Scenario.openA.2
                (Scenario.open ++ Scenario.close) Hown (or_intror Hcached))
    as [Hrun _].
  exact Hrun.
Defined.

(** ** One complete showing *)

Section FullCycle.
Context {util : StyleUtility}.

Lemma run_app (evs1 evs2 : list Event) (s : Modal.t * World) :
  run (evs1 ++ evs2) s = run evs2 (run evs1 s).
Proof. apply foldl_app. Qed.

Lemma didUpdate_opens (m : Modal.t) (w : World) :
  Modal.stage m = CLOSED →
  step (m, w) (DidUpdate true) =
    (Modal.set_stage OPENING
       (Modal.set_props (IProps.with_show true (Modal.props m)) m),
     Modal.beforeOpen
       (Modal.set_stage OPENING
          (Modal.set_props (IProps.with_show true (Modal.props m)) m))
       (emit (SetState (Modal.self m) OPENING) w)).
Proof.
  intros Hst. cbn [step]. unfold Modal.componentDidUpdate, Modal.setState.
  cbn [Modal.props Modal.set_props Modal.stage IProps.show IProps.with_show].
  by rewrite Hst.
Qed.

Lemma didUpdate_closes (m : Modal.t) (w : World) :
  Modal.stage m = OPENED →
  step (m, w) (DidUpdate false) =
    (Modal.set_stage CLOSING
       (Modal.set_props (IProps.with_show false (Modal.props m)) m),
     Modal.beforeClose
       (Modal.set_stage CLOSING
          (Modal.set_props (IProps.with_show false (Modal.props m)) m))
       (emit (SetState (Modal.self m) CLOSING) w)).
Proof.
  intros Hst. cbn [step]. unfold Modal.componentDidUpdate, Modal.setState.
  cbn [Modal.props Modal.set_props Modal.stage IProps.show IProps.with_show].
  by rewrite Hst.
Qed.

(** As many closing signals as parts are animated amount to the close
    sequence, run once. *)
Lemma run_to_closed (m : Modal.t) (w : World) :
  Modal.animated m = Modal.expectedCount m →
  run (replicate (Z.to_nat (Modal.expectedCount m)) Completed) (m, w) =
    (Modal.set_stage CLOSED (Modal.set_animated 0 m),
     Modal.onClose (Modal.set_stage CLOSED (Modal.set_animated 0 m))
       (emit (SetState (Modal.self m) CLOSED) w)).
Proof.
  intros Ha.
  assert (Hexp : Modal.expectedCount m =
                   if IProps.noBackdrop (Modal.props m) then 1 else 2) by done.
  rewrite Hexp in Ha |- *.
  destruct (IProps.noBackdrop (Modal.props m)) eqn:Hnb.
  - change (run _ _) with (Modal.onClosing m w).
    rewrite onClosing_complete by lia. by rewrite Ha.
  - change (run _ _) with (step (Modal.onClosing m w) Completed).
    rewrite onClosing_pending by lia. cbn [step].
    rewrite onClosing_complete by (simpl; lia). simpl. by rewrite Ha.
Qed.

(** The opening half: what it leaves of the instance and of the world. *)
Lemma open_phase (m : Modal.t) (w : World) :
  Modal.stage m = CLOSED → Modal.animated m = 0 →
  let s := run (DidUpdate true
                  :: replicate (Z.to_nat (Modal.expectedCount m)) Entered)
             (m, w) in
  let p := Modal.props m in
  s.1 = Modal.set_prevFocused
          (if IProps.noFocus p then Modal.prevFocused m else activeElement w)
          (Modal.set_stage OPENED
             (Modal.set_animated (Modal.expectedCount m)
                (Modal.set_props (IProps.with_show true p) m)))
  ∧ trace s.2 =
      trace w
      ++ SetState (Modal.self m) OPENING
         :: call_trace m (IProps.beforeOpen p) CbBeforeOpen
      ++ SetState (Modal.self m) OPENED
         :: focus_trace m ++ call_trace m (IProps.onOpen p) CbOnOpen
  ∧ parents s.2 =
      <[Modal.parent m :=
          Modal.id m :: default [] (parents w !! Modal.parent m)]> (parents w)
  ∧ listeners s.2 =
      {[ (Keydown, Modal.self m) ]}
        ∪ (if IProps.withDocumentClicks p
           then {[ (Click, Modal.self m) ]} ∪ listeners w else listeners w)
  ∧ focusable s.2 = focusable w.
Proof.
  intros Hst Ha. cbv zeta. rewrite run_cons, didUpdate_opens by done.
  set (mo := Modal.set_stage OPENING _).
  set (w0 := emit (SetState (Modal.self m) OPENING) w).
  change (Modal.expectedCount m) with (Modal.expectedCount mo).
  rewrite run_to_opened by done.
  set (m2 := Modal.set_stage OPENED _).
  set (w1 := emit (SetState (Modal.self mo) OPENED) (Modal.beforeOpen mo w0)).
  destruct (beforeOpen_frame mo w0) as (_ & Hp0 & Hl0 & Ha0 & Hf0).
  assert (Ht0 : trace (Modal.beforeOpen mo w0) =
                trace w ++ SetState (Modal.self m) OPENING
                  :: call_trace m (IProps.beforeOpen (Modal.props m)) CbBeforeOpen).
  { unfold Modal.beforeOpen.
    rewrite trace_disableScroll, trace_call_opt. unfold w0. simpl.
    by rewrite <- app_assoc. }
  split; [|split; [|split; [|split]]].
  - rewrite onOpen_instance. unfold m2, mo, w1. simpl. rewrite Ha0.
    destruct m as [r p i pa po pf a st]. simpl in *.
    by destruct (IProps.noFocus p).
  - rewrite trace_onOpen. unfold w1. simpl. rewrite Ht0.
    rewrite <- !app_assoc. simpl. done.
  - rewrite parents_onOpen. unfold w1. simpl. by rewrite Hp0.
  - rewrite listeners_onOpen. unfold w1. simpl. by rewrite Hl0.
  - unfold Modal.onOpen, Modal.storeFocus.
    set (w2 := Modal.addDocEvents m2 (Modal.register m2 w1)).
    assert (Hf2 : focusable w2 = focusable w).
    { unfold w2. destruct (addDocEvents_frame m2 (Modal.register m2 w1))
        as (_ & _ & _ & _ & ->).
      destruct (register_frame m2 w1) as (_ & _ & _ & _ & ->).
      unfold w1. simpl. by rewrite Hf0. }
    destruct (IProps.noFocus (Modal.props m2));
      cbn [fst snd];
      match goal with
      | |- focusable (Modal.call_opt ?a ?b ?c ?d) = _ =>
          destruct (call_opt_frame a b c d) as (_ & _ & _ & _ & _ & ->)
      end; [done|].
    by destruct (Modal.portal _).
Qed.

(** The closing half. *)
Lemma close_phase (m : Modal.t) (w : World) :
  Modal.stage m = OPENED → Modal.animated m = Modal.expectedCount m →
  let s := run (DidUpdate false
                  :: replicate (Z.to_nat (Modal.expectedCount m)) Completed)
             (m, w) in
  let p := Modal.props m in
  s.1 = Modal.set_stage CLOSED
          (Modal.set_animated 0
             (Modal.set_props (IProps.with_show false p) m))
  ∧ trace s.2 =
      trace w
      ++ SetState (Modal.self m) CLOSING
         :: call_trace m (IProps.beforeClose p) CbBeforeClose
      ++ SetState (Modal.self m) CLOSED
         :: restore_trace m w ++ call_trace m (IProps.onClose p) CbOnClose
  ∧ parents s.2 = parents (Modal.unregister m w)
  ∧ listeners s.2 =
      (if IProps.withDocumentClicks p
       then listeners w ∖ {[ (Click, Modal.self m) ]} else listeners w)
        ∖ {[ (Keydown, Modal.self m) ]}.
Proof.
  intros Hst Ha. cbv zeta. rewrite run_cons, didUpdate_closes by done.
  set (mc := Modal.set_stage CLOSING _).
  set (w0 := emit (SetState (Modal.self m) CLOSING) w).
  change (Modal.expectedCount m) with (Modal.expectedCount mc).
  rewrite run_to_closed by done.
  set (mz := Modal.set_stage CLOSED _).
  set (w1 := emit (SetState (Modal.self mc) CLOSED) (Modal.beforeClose mc w0)).
  unfold Modal.beforeClose in w1.
  destruct (call_opt_frame mc (IProps.beforeClose (Modal.props mc))
              CbBeforeClose w0) as (_ & Hp0 & _ & Hl0 & _ & Hf0).
  assert (Hfoc : focusable w1 = focusable w).
  { unfold w1. cbn [focusable emit]. by rewrite Hf0. }
  split; [|split; [|split]]; cbn [fst snd].
  - unfold mz, mc. by destruct m.
  - rewrite trace_onClose. unfold restore_trace. rewrite Hfoc.
    change (Modal.prevFocused mz) with (Modal.prevFocused m).
    unfold w1. cbn [trace emit]. rewrite trace_call_opt.
    unfold w0. cbn [trace emit].
    rewrite <- !app_assoc. simpl. done.
  - assert (Hpar : parents w1 = parents w).
    { unfold w1. cbn [parents emit]. by rewrite Hp0. }
    rewrite onClose_parents. unfold Modal.unregister. rewrite Hpar.
    change (Modal.parent mz) with (Modal.parent m).
    change (Modal.id mz) with (Modal.id m).
    destruct (parents w !! Modal.parent m); [case_decide|]; done.
  - assert (Hlis : listeners w1 = listeners w).
    { unfold w1. cbn [listeners emit]. by rewrite Hl0. }
    rewrite listeners_onClose. by rewrite Hlis.
Qed.

End FullCycle.

Lemma unregister_parents_ext (m m' : Modal.t) (w w' : World) :
  Modal.parent m' = Modal.parent m → Modal.id m' = Modal.id m →
  parents w' = parents w →
  parents (Modal.unregister m' w') = parents (Modal.unregister m w).
Proof.
  intros Hp Hi Hw. unfold Modal.unregister. rewrite Hp, Hi, Hw.
  destruct (parents w !! Modal.parent m); [case_decide|]; simpl;
    by rewrite ?Hw.
Qed.

Lemma cycle_callback_order_pre {util : StyleUtility} (m : Modal.t) (w : World) :
  Modal.stage m = CLOSED → Modal.animated m = 0 →
  let s := run (full_cycle m) (m, w) in
  let p := Modal.props m in
  let prev := if IProps.noFocus p then Modal.prevFocused m
              else activeElement w in
  s.1 = Modal.set_prevFocused prev
          (Modal.set_stage CLOSED
             (Modal.set_props (IProps.with_show false p) m))
  ∧ trace s.2 =
      trace w
      ++ SetState (Modal.self m) OPENING
         :: call_trace m (IProps.beforeOpen p) CbBeforeOpen
      ++ SetState (Modal.self m) OPENED
         :: focus_trace m ++ call_trace m (IProps.onOpen p) CbOnOpen
      ++ SetState (Modal.self m) CLOSING
         :: call_trace m (IProps.beforeClose p) CbBeforeClose
      ++ SetState (Modal.self m) CLOSED
         :: restore_trace (Modal.set_prevFocused prev m) w
      ++ call_trace m (IProps.onClose p) CbOnClose
  ∧ parents s.2 = parents (Modal.unregister m (Modal.register m w))
  ∧ listeners s.2 =
      (if IProps.withDocumentClicks p
       then ({[ (Keydown, Modal.self m) ]}
               ∪ ({[ (Click, Modal.self m) ]} ∪ listeners w))
              ∖ {[ (Click, Modal.self m) ]}
       else {[ (Keydown, Modal.self m) ]} ∪ listeners w)
        ∖ {[ (Keydown, Modal.self m) ]}.
Proof.
  intros Hst Ha. cbv zeta. unfold full_cycle.
  rewrite app_comm_cons, run_app.
  destruct (open_phase m w Hst Ha) as (Hm1 & Ht1 & Hp1 & Hl1 & Hf1).
  destruct (run _ (m, w)) as [m1 w1]. cbn [fst snd] in *.
  assert (Hexp : Modal.expectedCount m = Modal.expectedCount m1)
    by (by rewrite Hm1).
  rewrite Hexp.
  destruct (close_phase m1 w1) as (Hm2 & Ht2 & Hp2 & Hl2).
  { by rewrite Hm1. }
  { rewrite <- Hexp. by rewrite Hm1. }
  destruct (run _ (m1, w1)) as [m2 w2]. cbn [fst snd] in *.
  split; [|split; [|split]].
  - rewrite Hm2, Hm1. destruct m. simpl in *. by subst.
  - rewrite Ht2, Ht1. unfold restore_trace. rewrite Hf1, Hm1.
    unfold call_trace. cbn [Modal.self Modal.props Modal.set_prevFocused
      Modal.set_stage Modal.set_animated Modal.set_props Modal.prevFocused
      IProps.with_show IProps.beforeClose IProps.onClose].
    repeat (rewrite <- app_assoc || rewrite <- app_comm_cons). done.
  - rewrite Hp2. apply unregister_parents_ext.
    + by rewrite Hm1.
    + by rewrite Hm1.
    + by rewrite Hp1, register_parents.
  - rewrite Hl2, Hl1, Hm1. simpl.
    by destruct (IProps.withDocumentClicks (Modal.props m)).
Qed.

(** A complete showing of a closed instance sets the four stages and
    calls the callbacks of the props in one fixed order: OPENING and
    [beforeOpen]; OPENED, the focus taken by the modal's root, [onOpen];
    CLOSING and [beforeClose]; CLOSED, the focus given back, [onClose].
    Each stage is set once, and the instance ends CLOSED with its counter
    at 0. *)
Theorem cycle_callback_order {util : StyleUtility} (m : Modal.t) (w : World) :
  Modal.stage m = CLOSED → Modal.animated m = 0 →
  let s := run (full_cycle m) (m, w) in
  let p := Modal.props m in
  let prev := if IProps.noFocus p then Modal.prevFocused m
              else activeElement w in
  Modal.stage s.1 = CLOSED
  ∧ Modal.animated s.1 = 0
  ∧ trace s.2 =
      trace w
      ++ SetState (Modal.self m) OPENING
         :: call_trace m (IProps.beforeOpen p) CbBeforeOpen
      ++ SetState (Modal.self m) OPENED
         :: focus_trace m ++ call_trace m (IProps.onOpen p) CbOnOpen
      ++ SetState (Modal.self m) CLOSING
         :: call_trace m (IProps.beforeClose p) CbBeforeClose
      ++ SetState (Modal.self m) CLOSED
         :: restore_trace (Modal.set_prevFocused prev m) w
      ++ call_trace m (IProps.onClose p) CbOnClose.
Proof.
  intros Hst Ha.
  destruct (cycle_callback_order_pre m w Hst Ha) as (Hm & Ht & _).
  cbv zeta. rewrite Hm. split; [done|]. split; [by simpl|done].
Qed.

Lemma cycle_callback_order_witness :
  Modal.stage Scenario.mountBare.1 = CLOSED
  ∧ Modal.animated Scenario.mountBare.1 = 0
  ∧ trace (run (util := hide_overflow) (full_cycle Scenario.mountBare.1)
             (Scenario.mountBare.1, Scenario.mountBare.2)).2
    = [SetState 4%nat OPENING; Call 4%nat CbBeforeOpen;
       SetState 4%nat OPENED; Focus (Node 4); Call 4%nat CbOnOpen;
       SetState 4%nat CLOSING; Call 4%nat CbBeforeClose;
       SetState 4%nat CLOSED; Focus (Node 7); Call 4%nat CbOnClose].
Proof.
  pose proof (cycle_callback_order (util := hide_overflow)
                Scenario.mountBare.1 Scenario.mountBare.2 eq_refl eq_refl)
    as Hcycle.
  cbv zeta in Hcycle. destruct Hcycle as (_ & _ & Htrace).
  split; [reflexivity|]. split; [reflexivity|].
  etrans; [exact Htrace|]. by vm_compute.
Defined.

(** A complete showing of a closed instance that is alone in using its
    own handlers leaves the registry and the document's listeners as it
    found them. *)
Theorem cycle_restores_registry_and_listeners {util : StyleUtility}
    (m : Modal.t) (w : World) :
  Modal.stage m = CLOSED → Modal.animated m = 0 →
  parents w !! Modal.parent m ≠ Some [] →
  detached (Modal.self m) w →
  parents (run (full_cycle m) (m, w)).2 = parents w
  ∧ listeners (run (full_cycle m) (m, w)).2 = listeners w.
Proof.
  intros Hst Ha Hwf [Hkey Hclick].
  destruct (cycle_callback_order_pre m w Hst Ha) as (_ & _ & Hp & Hl).
  split.
  - by rewrite Hp, unregister_after_register.
  - rewrite Hl. destruct (IProps.withDocumentClicks (Modal.props m));
      set_solver.
Qed.

Lemma cycle_restores_registry_and_listeners_witness :
  Modal.stage Scenario.mountBare.1 = CLOSED
  ∧ Modal.animated Scenario.mountBare.1 = 0
  ∧ parents Scenario.mountBare.2 !! Modal.parent Scenario.mountBare.1 ≠ Some []
  ∧ detached (Modal.self Scenario.mountBare.1) Scenario.mountBare.2
  ∧ listeners (run (util := hide_overflow) (full_cycle Scenario.mountBare.1)
                 (Scenario.mountBare.1, Scenario.mountBare.2)).2
    = listeners Scenario.mountBare.2.
Proof.
  assert (Hwf : parents Scenario.mountBare.2
                  !! Modal.parent Scenario.mountBare.1 ≠ Some [])
    by (by vm_compute).
  assert (Hdet : detached (Modal.self Scenario.mountBare.1)
                   Scenario.mountBare.2).
  { assert (Hl : listeners Scenario.mountBare.2 = ∅) by (by vm_compute).
    unfold detached. rewrite Hl. split; set_solver. }
  pose proof (cycle_restores_registry_and_listeners (util := hide_overflow)
                Scenario.mountBare.1 Scenario.mountBare.2
                eq_refl eq_refl Hwf Hdet) as [_ Hlisteners].
  split; [reflexivity|]. split; [reflexivity|]. split; [exact Hwf|].
  split; [exact Hdet|]. exact Hlisteners.
Defined.

(** ** Unmounting an instance that is not open *)

Lemma removeDocEvents_detached (m : Modal.t) (w : World) :
  detached (Modal.self m) w → Modal.removeDocEvents m w = w.
Proof.
  intros [Hkey Hclick]. unfold Modal.removeDocEvents.
  assert (Hc : listeners w ∖ {[ (Click, Modal.self m) ]} = listeners w)
    by set_solver.
  assert (Hk : listeners w ∖ {[ (Keydown, Modal.self m) ]} = listeners w)
    by set_solver.
  destruct (IProps.withDocumentClicks (Modal.props m)); simpl;
    rewrite ?Hc, ?Hk; by destruct w.
Qed.

(** [componentWillUnmount] runs the close sequence whatever the stage.  For
    an instance that holds no focus record, has no listener attached, does
    not own the scroll lock and whose parent has no list in the registry,
    all that happens is the call of the [onClose] callback, if there is
    one: it is called although the instance never opened. *)
Theorem unmount_of_unopened_calls_onClose (m : Modal.t) (w : World) :
  Modal.prevFocused m = None →
  parents w !! Modal.parent m = None →
  detached (Modal.self m) w →
  dataset (element_of w (Modal.target m)) !! SCROLL_DISABLER_KEY
    ≠ Some (toString (Modal.id m)) →
  Modal.componentWillUnmount m w =
    (if IProps.onClose (Modal.props m)
     then emit (Call (Modal.self m) CbOnClose) w else w).
Proof.
  intros Hprev Hnone Hdet Hown.
  unfold Modal.componentWillUnmount, Modal.onClose.
  assert (Hun : Modal.unregister m w = w)
    by (unfold Modal.unregister; by rewrite Hnone).
  rewrite Hun, (removeDocEvents_detached m w Hdet).
  unfold Modal.restoreFocus. rewrite Hprev.
  by rewrite (restoreScroll_noop m w Hown).
Qed.

Lemma unmount_of_unopened_calls_onClose_witness :
  Modal.prevFocused Scenario.mountBare.1 = None
  ∧ parents Scenario.mountBare.2 !! Modal.parent Scenario.mountBare.1 = None
  ∧ detached (Modal.self Scenario.mountBare.1) Scenario.mountBare.2
  ∧ Modal.componentWillUnmount Scenario.mountBare.1 Scenario.mountBare.2
    = emit (Call 4%nat CbOnClose) Scenario.mountBare.2.
Proof.
  assert (Hdet : detached (Modal.self Scenario.mountBare.1)
                   Scenario.mountBare.2).
  { assert (Hl : listeners Scenario.mountBare.2 = ∅) by (by vm_compute).
    unfold detached. rewrite Hl. split; set_solver. }
  assert (Hown : dataset (element_of Scenario.mountBare.2
                            (Modal.target Scenario.mountBare.1))
                   !! SCROLL_DISABLER_KEY
                 ≠ Some (toString (Modal.id Scenario.mountBare.1)))
    by (by vm_compute).
  pose proof (unmount_of_unopened_calls_onClose
                Scenario.mountBare.1 Scenario.mountBare.2
                eq_refl eq_refl Hdet Hown) as Hunmount.
  split; [reflexivity|]. split; [reflexivity|]. split; [exact Hdet|].
  exact Hunmount.
Defined.
